(** * simplebank: the transfer transaction of [db/sqlc/store.go]

    A shallow embedding of [execTx], [TransferTx] and
    [AddAccountBalanceOrder] over an explicit model of the SQL store:
    committed tables, the write set of the open transaction, the id
    sequences, and a plan of store failures.  Go's [(value, err)] returns
    are kept as pairs, so that the partially filled values the code returns
    next to an error can be talked about. *)

From stdpp Require Import gmap strings list.
From stdpp Require Import sorting.
From Stdlib Require Import ZArith Lia.

Local Open Scope Z_scope.

(** ** int64 *)

Module Int64.

Definition min_int64 : Z := - 2 ^ 63.
Definition max_int64 : Z := 2 ^ 63 - 1.

Definition in_int64 (z : Z) : Prop := min_int64 <= z <= max_int64.

Definition in_int64b (z : Z) : bool := (min_int64 <=? z) && (z <=? max_int64).

(** Two's complement wrap-around of Go's int64 arithmetic. *)
Definition wrap64 (z : Z) : Z := (z + 2 ^ 63) mod 2 ^ 64 - 2 ^ 63.

(** Go's unary minus on an int64. *)
Definition neg64 (a : Z) : Z := wrap64 (- a).

End Int64.
Import Int64.

(** ** Rows and query parameters *)

(** Modelled from the spec: the generated row types of [models.go] are not
    part of the sources at hand; the fields are those of the data model
    (identifier, owner, balance, currency, creation time). *)
Record Account := mkAccount {
  Account_ID : Z;
  Account_Owner : string;
  Account_Balance : Z;
  Account_Currency : string;
  Account_CreatedAt : Z }.

Record Transfer := mkTransfer {
  Transfer_ID : Z;
  Transfer_FromAccountID : Z;
  Transfer_ToAccountID : Z;
  Transfer_Amount : Z;
  Transfer_CreatedAt : Z }.

Record Entry := mkEntry {
  Entry_ID : Z;
  Entry_AccountID : Z;
  Entry_Amount : Z;
  Entry_CreatedAt : Z }.

Record CreateTransferParams := mkCreateTransferParams {
  FromAccountID : Z;
  ToAccountID : Z;
  Amount : Z }.

Record CreateEntryParams := mkCreateEntryParams {
  CreateEntry_AccountID : Z;
  CreateEntry_Amount : Z }.

Record AddAccountBalanceParams := mkAddAccountBalanceParams {
  AddAccountBalance_Amount : Z;
  AddAccountBalance_ID : Z }.

(** Go zero values. *)
Definition zero_Account : Account := mkAccount 0 "" 0 "" 0.
Definition zero_Transfer : Transfer := mkTransfer 0 0 0 0 0.
Definition zero_Entry : Entry := mkEntry 0 0 0 0.

Record TransferTxResult := mkTransferTxResult {
  res_Transfer : Transfer;
  res_FromAccount : Account;
  res_ToAccount : Account;
  res_FromEntry : Entry;
  res_ToEntry : Entry }.

Definition zero_TransferTxResult : TransferTxResult :=
  mkTransferTxResult zero_Transfer zero_Account zero_Account zero_Entry zero_Entry.

(** ** Errors *)

Inductive error :=
  | ErrNoRows                       (* sql.ErrNoRows *)
  | ErrConnDone                     (* sql.ErrConnDone *)
  | ErrTxDone                       (* sql.ErrTxDone *)
  | PqError (msg : string)          (* an error reported by the server *)
  | errorString (msg : string).     (* the value fmt.Errorf builds *)

(** The [Error()] method. *)
Definition Error (e : error) : string :=
  match e with
  | ErrNoRows => "sql: no rows in result set"
  | ErrConnDone => "sql: database is closed"
  | ErrTxDone => "sql: transaction has already been committed or rolled back"
  | PqError msg => String.append "pq: " msg
  | errorString msg => msg
  end.

(** [fmt.Errorf("txErr: %v, rbErr: %v", err, errRb)]: the two operands are
    rendered with [%v], that is through [Error()]. *)
Definition Errorf_txErr_rbErr (err errRb : error) : error :=
  errorString
    (String.append "txErr: "
       (String.append (Error err) (String.append ", rbErr: " (Error errRb)))).

(** ** The store *)

(** The store is seen by one client.  A world holds the committed tables,
    the writes of the transaction that is open (if any), the two identifier
    sequences, which like the sequences of the server are not rolled back,
    the value of [now()], the outcome planned for the calls to come, and
    the calls made so far.  The constraints of the schema, which is not
    part of the sources at hand, are not modelled one by one: a statement
    that the server would refuse is a call that the plan makes fail, so a
    property proved for every plan holds whatever the constraints are. *)

(** What a [Queries] value runs its statements on ([DBTX]): the connection
    pool, where each statement commits on its own, or the transaction. *)
Inductive DBTX := Pool | InTx.

Record Queries := New { q_db : DBTX }.

Record Tables := mkTables {
  accounts : gmap Z Account;
  transfers : list Transfer;
  entries : list Entry }.

(** A write of a statement, kept by an open transaction until it ends. *)
Inductive Write :=
  | WTransfer (row : Transfer)
  | WEntry (row : Entry)
  | WBalance (id delta : Z).

Definition set_balance (b : Z) (a : Account) : Account :=
  mkAccount (Account_ID a) (Account_Owner a) b (Account_Currency a) (Account_CreatedAt a).

Definition insert_transfer (row : Transfer) (tb : Tables) : Tables :=
  mkTables (accounts tb) (transfers tb ++ [row]) (entries tb).

Definition insert_entry (row : Entry) (tb : Tables) : Tables :=
  mkTables (accounts tb) (transfers tb) (entries tb ++ [row]).

(** [UPDATE accounts SET balance = balance + delta WHERE id = id]. *)
Definition add_balance (id delta : Z) (tb : Tables) : Tables :=
  mkTables
    (alter (fun a => set_balance (Account_Balance a + delta) a) id (accounts tb))
    (transfers tb) (entries tb).

Definition apply_write (tb : Tables) (wr : Write) : Tables :=
  match wr with
  | WTransfer row => insert_transfer row tb
  | WEntry row => insert_entry row tb
  | WBalance id delta => add_balance id delta tb
  end.

(** Every call the code makes on the store, in the order it is issued. *)
Inductive Event :=
  | EvBeginTx
  | EvCommit
  | EvRollback
  | EvCreateTransfer (db : DBTX) (arg : CreateTransferParams)
  | EvCreateEntry (db : DBTX) (arg : CreateEntryParams)
  | EvAddAccountBalance (db : DBTX) (arg : AddAccountBalanceParams).

Record World := mkWorld {
  committed : Tables;                 (* what is visible outside transactions *)
  pending : option (list Write);      (* writes of the open transaction *)
  transfers_id_seq : Z;
  entries_id_seq : Z;
  clock : Z;
  faults : list (option error);       (* outcome planned for the next calls *)
  trace : list Event }.

Definition with_committed (tb : Tables) (w : World) : World :=
  mkWorld tb (pending w) (transfers_id_seq w) (entries_id_seq w) (clock w)
    (faults w) (trace w).

Definition with_pending (p : option (list Write)) (w : World) : World :=
  mkWorld (committed w) p (transfers_id_seq w) (entries_id_seq w) (clock w)
    (faults w) (trace w).

Definition with_transfers_id_seq (n : Z) (w : World) : World :=
  mkWorld (committed w) (pending w) n (entries_id_seq w) (clock w)
    (faults w) (trace w).

Definition with_entries_id_seq (n : Z) (w : World) : World :=
  mkWorld (committed w) (pending w) (transfers_id_seq w) n (clock w)
    (faults w) (trace w).

Definition with_faults (fs : list (option error)) (w : World) : World :=
  mkWorld (committed w) (pending w) (transfers_id_seq w) (entries_id_seq w)
    (clock w) fs (trace w).

Definition log_event (ev : Event) (w : World) : World :=
  mkWorld (committed w) (pending w) (transfers_id_seq w) (entries_id_seq w)
    (clock w) (faults w) (trace w ++ [ev]).

(** One call on the store: it is recorded, and it fails when the plan says
    so (a lost connection, a cancelled context, a violated constraint). *)
Definition roundtrip (ev : Event) (w : World) : option error * World :=
  match faults w with
  | [] => (None, log_event ev w)
  | f :: rest => (f, with_faults rest (log_event ev w))
  end.

(** The tables a statement sees through a handle; [None] when the handle is
    a transaction that has ended. *)
Definition view (db : DBTX) (w : World) : option Tables :=
  match db with
  | Pool => Some (committed w)
  | InTx => foldl apply_write (committed w) <$> pending w
  end.

(** The write of a statement: at once on the pool, deferred in a
    transaction. *)
Definition submit (db : DBTX) (wr : Write) (w : World) : World :=
  match db with
  | Pool => with_committed (apply_write (committed w) wr) w
  | InTx => with_pending ((fun ws => ws ++ [wr]) <$> pending w) w
  end.

(** [store.db.BeginTx(ctx, nil)] *)
Definition BeginTx (w : World) : option error * World :=
  match roundtrip EvBeginTx w with
  | (Some err, w1) => (Some err, w1)
  | (None, w1) => (None, with_pending (Some []) w1)
  end.

(** [tx.Commit()] *)
Definition Commit (w : World) : option error * World :=
  match roundtrip EvCommit w with
  | (Some err, w1) => (Some err, with_pending None w1)
  | (None, w1) =>
      match pending w1 with
      | None => (Some ErrTxDone, w1)
      | Some ws =>
          (None, with_pending None
                   (with_committed (foldl apply_write (committed w1) ws) w1))
      end
  end.

(** [tx.Rollback()] *)
Definition Rollback (w : World) : option error * World :=
  match roundtrip EvRollback w with
  | (Some err, w1) => (Some err, with_pending None w1)
  | (None, w1) =>
      match pending w1 with
      | None => (Some ErrTxDone, w1)
      | Some _ => (None, with_pending None w1)
      end
  end.

(** [CreateTransfer], db/query/transfer.sql:
    [INSERT INTO transfers(from_account_id, to_account_id, amount)
     VALUES ($1, $2, $3) RETURNING *]. *)
Definition CreateTransfer (q : Queries) (arg : CreateTransferParams) (w : World)
  : Transfer * option error * World :=
  match roundtrip (EvCreateTransfer (q_db q) arg) w with
  | (Some err, w1) => (zero_Transfer, Some err, w1)
  | (None, w1) =>
      match view (q_db q) w1 with
      | None => (zero_Transfer, Some ErrTxDone, w1)
      | Some _ =>
          let id := transfers_id_seq w1 + 1 in
          let row :=
            mkTransfer id (FromAccountID arg) (ToAccountID arg) (Amount arg)
              (clock w1) in
          (row, None,
           submit (q_db q) (WTransfer row) (with_transfers_id_seq id w1))
      end
  end.

(** [CreateEntry]:
    [INSERT INTO entries(account_id, amount) VALUES ($1, $2) RETURNING *]. *)
Definition CreateEntry (q : Queries) (arg : CreateEntryParams) (w : World)
  : Entry * option error * World :=
  match roundtrip (EvCreateEntry (q_db q) arg) w with
  | (Some err, w1) => (zero_Entry, Some err, w1)
  | (None, w1) =>
      match view (q_db q) w1 with
      | None => (zero_Entry, Some ErrTxDone, w1)
      | Some _ =>
          let id := entries_id_seq w1 + 1 in
          let row :=
            mkEntry id (CreateEntry_AccountID arg) (CreateEntry_Amount arg)
              (clock w1) in
          (row, None,
           submit (q_db q) (WEntry row) (with_entries_id_seq id w1))
      end
  end.

(** Modelled from the spec: the query [AddAccountBalance] (account.sql and
    its generated Go) is not part of the sources at hand.  It applies the
    signed delta on the server, [balance = balance + delta], and returns the
    updated row; no row gives [sql.ErrNoRows], and a sum that leaves the
    range of the [bigint] column is refused by the server. *)
Definition AddAccountBalance (q : Queries) (arg : AddAccountBalanceParams)
  (w : World) : Account * option error * World :=
  match roundtrip (EvAddAccountBalance (q_db q) arg) w with
  | (Some err, w1) => (zero_Account, Some err, w1)
  | (None, w1) =>
      match view (q_db q) w1 with
      | None => (zero_Account, Some ErrTxDone, w1)
      | Some tb =>
          match accounts tb !! AddAccountBalance_ID arg with
          | None => (zero_Account, Some ErrNoRows, w1)
          | Some a =>
              let b := Account_Balance a + AddAccountBalance_Amount arg in
              if in_int64b b then
                (set_balance b a, None,
                 submit (q_db q)
                   (WBalance (AddAccountBalance_ID arg)
                      (AddAccountBalance_Amount arg)) w1)
              else (zero_Account, Some (PqError "bigint out of range"), w1)
          end
      end
  end.

(** ** store.go *)

(** [SQLStore] embeds the [*Queries] that [NewStore] builds on the pool. *)
Record SQLStore := mkSQLStore { store_Queries : Queries }.

Definition NewStore : SQLStore := mkSQLStore (New Pool).

(** [execTx]: [fn] is a closure; [S] is the type of the variables it
    captures and assigns. *)
Definition execTx {S : Type} (store : SQLStore)
  (fn : Queries -> S -> World -> option error * S * World)
  (s : S) (w : World) : option error * S * World :=
  match BeginTx w with
  | (Some err, w1) => (Some err, s, w1)
  | (None, w1) =>
      let db := New InTx in
      match fn db s w1 with
      | (Some err, s2, w2) =>
          match Rollback w2 with
          | (Some errRb, w3) => (Some (Errorf_txErr_rbErr err errRb), s2, w3)
          | (None, w3) => (Some err, s2, w3)
          end
      | (None, s2, w2) =>
          let '(err, w3) := Commit w2 in (err, s2, w3)
      end
  end.

Definition AddAccountBalanceOrder (store : SQLStore)
  (account1ID account2ID amount : Z) (w : World)
  : Account * Account * option error * World :=
  if account1ID <? account2ID then
    (* Update from Accounts' balance *)
    let '(fromAccount, err, w1) :=
      AddAccountBalance (store_Queries store)
        (mkAddAccountBalanceParams (neg64 amount) account1ID) w in
    match err with
    | Some _ => (fromAccount, zero_Account, err, w1)
    | None =>
        (* Update to Accounts' balance *)
        let '(toAccount, err, w2) :=
          AddAccountBalance (store_Queries store)
            (mkAddAccountBalanceParams amount account2ID) w1 in
        (fromAccount, toAccount, err, w2)
    end
  else
    (* Update to Accounts' balance *)
    let '(toAccount, err, w1) :=
      AddAccountBalance (store_Queries store)
        (mkAddAccountBalanceParams amount account2ID) w in
    match err with
    | Some _ => (zero_Account, toAccount, err, w1)
    | None =>
        (* Update from Accounts' balance *)
        let '(fromAccount, err, w2) :=
          AddAccountBalance (store_Queries store)
            (mkAddAccountBalanceParams (neg64 amount) account1ID) w1 in
        (fromAccount, toAccount, err, w2)
    end.

Definition with_Transfer (t : Transfer) (r : TransferTxResult) : TransferTxResult :=
  mkTransferTxResult t (res_FromAccount r) (res_ToAccount r) (res_FromEntry r)
    (res_ToEntry r).

Definition with_FromEntry (e : Entry) (r : TransferTxResult) : TransferTxResult :=
  mkTransferTxResult (res_Transfer r) (res_FromAccount r) (res_ToAccount r) e
    (res_ToEntry r).

Definition with_ToEntry (e : Entry) (r : TransferTxResult) : TransferTxResult :=
  mkTransferTxResult (res_Transfer r) (res_FromAccount r) (res_ToAccount r)
    (res_FromEntry r) e.

Definition with_Accounts (fromAccount toAccount : Account) (r : TransferTxResult)
  : TransferTxResult :=
  mkTransferTxResult (res_Transfer r) fromAccount toAccount (res_FromEntry r)
    (res_ToEntry r).

(** The closure [TransferTx] hands to [execTx].  Its parameter, the
    [*Queries] of the transaction, is unnamed in the source: every statement
    goes through [store], that is through [store.Queries]. *)
Definition TransferTx_fn (store : SQLStore) (params : CreateTransferParams)
  (_ : Queries) (result : TransferTxResult) (w : World)
  : option error * TransferTxResult * World :=
  (* create transfer *)
  let '(transfer, err, w) := CreateTransfer (store_Queries store) params w in
  match err with
  | Some _ => (err, result, w)
  | None =>
      let result := with_Transfer transfer result in
      (* create fromEntry *)
      let '(fromEntry, err, w) :=
        CreateEntry (store_Queries store)
          (mkCreateEntryParams (Transfer_FromAccountID transfer)
             (neg64 (Transfer_Amount transfer))) w in
      match err with
      | Some _ => (err, result, w)
      | None =>
          let result := with_FromEntry fromEntry result in
          (* create toEntry *)
          let '(toEntry, err, w) :=
            CreateEntry (store_Queries store)
              (mkCreateEntryParams (Transfer_ToAccountID transfer)
                 (Transfer_Amount transfer)) w in
          match err with
          | Some _ => (err, result, w)
          | None =>
              let result := with_ToEntry toEntry result in
              let '(fromAccount, toAccount, err, w) :=
                AddAccountBalanceOrder store (FromAccountID params)
                  (ToAccountID params) (Amount params) w in
              let result := with_Accounts fromAccount toAccount result in
              match err with
              | Some _ => (err, result, w)
              | None => (None, result, w)
              end
          end
      end
  end.

Definition TransferTx (store : SQLStore) (params : CreateTransferParams)
  (w : World) : TransferTxResult * option error * World :=
  let result := zero_TransferTxResult in
  let '(err, result, w') := execTx store (TransferTx_fn store params) result w in
  (result, err, w').

(** ** A concrete store: the example of the specification *)

Definition account1 : Account := mkAccount 1 "alice" 100 "USD" 0.
Definition account2 : Account := mkAccount 2 "bob" 50 "USD" 0.

Definition tables0 : Tables :=
  mkTables (<[1 := account1]> (<[2 := account2]> ∅)) [] [].

Definition world0 : World := mkWorld tables0 None 0 0 1000 [] [].

Definition balance_of (id : Z) (w : World) : option Z :=
  Account_Balance <$> accounts (committed w) !! id.

(** ** The statements of one transfer, in the order the code issues them *)

Definition new_transfer (w : World) (p : CreateTransferParams) : Transfer :=
  mkTransfer (transfers_id_seq w + 1) (FromAccountID p) (ToAccountID p)
    (Amount p) (clock w).

Definition new_from_entry (w : World) (p : CreateTransferParams) : Entry :=
  mkEntry (entries_id_seq w + 1) (FromAccountID p) (neg64 (Amount p)) (clock w).

Definition new_to_entry (w : World) (p : CreateTransferParams) : Entry :=
  mkEntry (entries_id_seq w + 1 + 1) (ToAccountID p) (Amount p) (clock w).

(** The two balance updates of [AddAccountBalanceOrder], as
    [(account, delta)], in the order of the branch taken. *)
Definition first_update (p : CreateTransferParams) : Z * Z :=
  if FromAccountID p <? ToAccountID p
  then (FromAccountID p, neg64 (Amount p))
  else (ToAccountID p, Amount p).

Definition second_update (p : CreateTransferParams) : Z * Z :=
  if FromAccountID p <? ToAccountID p
  then (ToAccountID p, Amount p)
  else (FromAccountID p, neg64 (Amount p)).

Definition writes (w : World) (p : CreateTransferParams) : list Write :=
  [ WTransfer (new_transfer w p);
    WEntry (new_from_entry w p);
    WEntry (new_to_entry w p);
    WBalance (first_update p).1 (first_update p).2;
    WBalance (second_update p).1 (second_update p).2 ].

Definition update_event (u : Z * Z) : Event :=
  EvAddAccountBalance Pool (mkAddAccountBalanceParams u.2 u.1).

Definition calls (p : CreateTransferParams) : list Event :=
  [ EvCreateTransfer Pool p;
    EvCreateEntry Pool (mkCreateEntryParams (FromAccountID p) (neg64 (Amount p)));
    EvCreateEntry Pool (mkCreateEntryParams (ToAccountID p) (Amount p));
    update_event (first_update p);
    update_event (second_update p) ].

(** The committed tables once the first [k] statements have succeeded. *)
Definition recorded (w : World) (p : CreateTransferParams) (k : nat) : Tables :=
  foldl apply_write (committed w) (take k (writes w p)).

(** The row an update returns on tables [tb]. *)
Definition updated (tb : Tables) (u : Z * Z) : Account :=
  match accounts tb !! u.1 with
  | Some a => set_balance (Account_Balance a + u.2) a
  | None => zero_Account
  end.

Definition update_ok (tb : Tables) (u : Z * Z) : Prop :=
  exists a, accounts tb !! u.1 = Some a /\ in_int64 (Account_Balance a + u.2).

(** The result value once the first [k] statements have succeeded: the
    fields assigned so far, the others at their zero value. *)
Definition result_after (w : World) (p : CreateTransferParams) (k : nat)
  : TransferTxResult :=
  let a1 := if (4 <=? k)%nat then updated (recorded w p 3) (first_update p)
            else zero_Account in
  let a2 := if (5 <=? k)%nat then updated (recorded w p 4) (second_update p)
            else zero_Account in
  mkTransferTxResult
    (if (1 <=? k)%nat then new_transfer w p else zero_Transfer)
    (if FromAccountID p <? ToAccountID p then a1 else a2)
    (if FromAccountID p <? ToAccountID p then a2 else a1)
    (if (2 <=? k)%nat then new_from_entry w p else zero_Entry)
    (if (3 <=? k)%nat then new_to_entry w p else zero_Entry).

(** The error [execTx] returns after a step error [e]: [e] itself, or its
    composition with the error of the rollback. *)
Definition step_error (e : error) (err : option error) : Prop :=
  err = Some e \/ exists errRb, err = Some (Errorf_txErr_rbErr e errRb).

(** ** Outcomes, frames and the inputs of the examples *)

(** The parts of the world a query leaves alone. *)
Definition called (ev : Event) (w w1 : World) : Prop :=
  trace w1 = trace w ++ [ev] /\ pending w1 = pending w /\ clock w1 = clock w.

(** What the closure of [TransferTx] has done once its first [k]
    statements have succeeded. *)
Definition body_outcome (p : CreateTransferParams) (w : World) (k : nat)
  (res : TransferTxResult) (w' : World) : Prop :=
  res = result_after w p k /\
  committed w' = recorded w p k /\
  transfers_id_seq w' = transfers_id_seq w + (if (1 <=? k)%nat then 1 else 0) /\
  entries_id_seq w' =
    entries_id_seq w +
    (if (3 <=? k)%nat then 2 else if (2 <=? k)%nat then 1 else 0) /\
  clock w' = clock w /\
  ((4 <= k)%nat -> update_ok (recorded w p 3) (first_update p)) /\
  ((5 <= k)%nat -> update_ok (recorded w p 4) (second_update p)).

(** Every way [TransferTx] ends: the transaction could not be opened, or
    the first [k] statements succeeded and then either statement [k] failed
    and a rollback was issued, or ([k = 5]) a commit was issued. *)
Definition outcome (p : CreateTransferParams) (w : World)
  (res : TransferTxResult) (err : option error) (w' : World) : Prop :=
  ((exists e, err = Some e) /\ res = zero_TransferTxResult /\
   committed w' = committed w /\
   transfers_id_seq w' = transfers_id_seq w /\
   entries_id_seq w' = entries_id_seq w /\
   trace w' = trace w ++ [EvBeginTx])
  \/
  exists k : nat,
    body_outcome p w k res w' /\
    ((k < 5)%nat /\ (exists e, step_error e err) /\
     trace w' = trace w ++ EvBeginTx :: take (S k) (calls p) ++ [EvRollback]
     \/
     k = 5%nat /\
     trace w' = trace w ++ EvBeginTx :: calls p ++ [EvCommit]).

(** A valid input of the specification: a positive amount that fits an
    int64, and two distinct accounts. *)
Definition valid_input (p : CreateTransferParams) : Prop :=
  0 < Amount p <= max_int64 /\ FromAccountID p <> ToAccountID p.

(** The example of the specification: accounts 1 (balance 100) and 2
    (balance 50), a transfer of 30 from 1 to 2. *)
Definition example_transfer : TransferTxResult * option error * World :=
  TransferTx NewStore (mkCreateTransferParams 1 2 30) world0.

(** The balance update of account [id] in a transfer of [amount] out of
    account [source]: the source is debited, the other account credited. *)
Definition role_update (source amount id : Z) : Event :=
  EvAddAccountBalance Pool
    (mkAddAccountBalanceParams
       (if decide (id = source) then neg64 amount else amount) id).

(** Accounts 3 and 7, the pair of the specification's example. *)
Definition world37 : World :=
  mkWorld
    (mkTables (<[3 := mkAccount 3 "carol" 500 "EUR" 0]>
                 (<[7 := mkAccount 7 "dave" 20 "EUR" 0]> ∅)) [] [])
    None 0 0 1000 [] [].

(** [sub] occurs in [s]. *)
Definition contains (s sub : string) : Prop :=
  exists pre post, s = String.append pre (String.append sub post).

(** A step that always fails, on a store that loses the connection right
    after the transaction is opened. *)
Definition failing_step (_ : Queries) (s : unit) (w : World)
  : option error * unit * World := (Some ErrNoRows, s, w).

Definition world_rollback_fails : World :=
  with_faults [None; Some ErrConnDone] world0.

(** The statement of C6 for one input: two successive successful calls
    with the same arguments move the amount twice. *)
Definition applied_twice (p : CreateTransferParams) (w : World) : Prop :=
  forall r1 w1 r2 w2 bF bT,
    TransferTx NewStore p w = (r1, None, w1) ->
    TransferTx NewStore p w1 = (r2, None, w2) ->
    balance_of (FromAccountID p) w = Some bF ->
    balance_of (ToAccountID p) w = Some bT ->
    balance_of (FromAccountID p) w2 = Some (bF - 2 * Amount p) /\
    balance_of (ToAccountID p) w2 = Some (bT + 2 * Amount p).

Definition example_transfer_again : TransferTxResult * option error * World :=
  TransferTx NewStore (mkCreateTransferParams 1 2 30) example_transfer.2.

(** The accounts whose balance a list of writes updates. *)
Definition touched (ws : list Write) : list Z :=
  omap (fun wr => match wr with WBalance id _ => Some id | _ => None end) ws.

(** A row before and after: present in both or absent in both, and if
    present equal in every column but the balance. *)
Definition same_but_balance (before after : option Account) : Prop :=
  match before, after with
  | Some a, Some a' => a' = set_balance (Account_Balance a') a
  | None, None => True
  | _, _ => False
  end.

(** The store on which the creation of the destination entry fails:
    opening the transaction, the creation of the transfer and that of the
    source entry succeed, the fourth call loses the connection. *)
Definition world_to_entry_fails : World :=
  with_faults [None; None; None; Some ErrConnDone] world0.

Definition failed_transfer : TransferTxResult * option error * World :=
  TransferTx NewStore (mkCreateTransferParams 1 2 30) world_to_entry_fails.

(** A transfer row and a debit issued through the handle of a transaction
    on [world0], which is then ended by [end_tx]. *)
Definition in_transaction (end_tx : World -> option error * World) : World :=
  let w1 := (BeginTx world0).2 in
  let w2 := (CreateTransfer (New InTx) (mkCreateTransferParams 1 2 30) w1).2 in
  let w3 :=
    (AddAccountBalance (New InTx) (mkAddAccountBalanceParams (-30) 1) w2).2 in
  (end_tx w3).2.

(** The store on which the credit of account 2 overflows the balance
    column: no failure is planned, account 2 holds the largest int64. *)
Definition world_overflow : World :=
  mkWorld
    (mkTables (<[1 := account1]>
                 (<[2 := mkAccount 2 "bob" max_int64 "USD" 0]> ∅)) [] [])
    None 0 0 1000 [] [].

Definition overflowing_transfer : TransferTxResult * option error * World :=
  TransferTx NewStore (mkCreateTransferParams 1 2 30) world_overflow.

(** The statement of C5 for one input: the call fails and has made no
    call on the store, so that no transaction was opened, nothing was
    rolled back and no statement was reached. *)
Definition rejected_before_transaction (p : CreateTransferParams) (w : World)
  : Prop :=
  (TransferTx NewStore p w).1.2 <> None /\
  trace (TransferTx NewStore p w).2 = trace w.

(** ** The other queries of transfer.sql and entry.sql *)

(** Each statement is given as the server runs it on the tables it sees,
    once the call has reached it and no constraint of the schema refuses
    it.  The annotation of the query decides what its Go method returns:
    [:one] the first row, or [sql.ErrNoRows] and the zero row when there is
    none; [:exec] an error only; [:many] the rows. *)

Section ById.
Context {R : Type} (ID : R -> Z).

(** [WHERE id = $n]: the rows selected, in the order of the table. *)
Definition where_id (id : Z) (rows : list R) : list R :=
  filter (fun r => ID r = id) rows.

(** [UPDATE ... SET ... WHERE id = $n] *)
Definition update_where_id (id : Z) (set : R -> R) (rows : list R) : list R :=
  (fun r => if decide (ID r = id) then set r else r) <$> rows.

(** [DELETE FROM ... WHERE id = $n] *)
Definition delete_where_id (id : Z) (rows : list R) : list R :=
  filter (fun r => ID r <> id) rows.

Definition id_le (a b : R) : Prop := ID a <= ID b.

Global Instance id_le_dec : RelDecision id_le :=
  fun a b => decide (ID a <= ID b).

(** [ORDER BY id] *)
Definition order_by_id (rows : list R) : list R := merge_sort id_le rows.

(** [LIMIT $1 OFFSET $2]: the server refuses a negative count. *)
Definition limit_offset (limit offset : Z) (rows : list R)
  : list R * option error :=
  if limit <? 0 then ([], Some (PqError "LIMIT must not be negative"))
  else if offset <? 0 then ([], Some (PqError "OFFSET must not be negative"))
  else (take (Z.to_nat limit) (drop (Z.to_nat offset) rows), None).

(** [:one] *)
Definition one (zero : R) (rows : list R) : R * option error :=
  match rows with
  | r :: _ => (r, None)
  | [] => (zero, Some ErrNoRows)
  end.

End ById.

Record UpdateTransferParams := mkUpdateTransferParams {
  UpdateTransfer_Amount : Z;
  UpdateTransfer_FromAccountID : Z;
  UpdateTransfer_ToAccountID : Z;
  UpdateTransfer_ID : Z }.

Record ListTransfersParams := mkListTransfersParams {
  ListTransfers_Limit : Z;
  ListTransfers_Offset : Z }.

Record UpdateEntryParams := mkUpdateEntryParams {
  UpdateEntry_Amount : Z;
  UpdateEntry_ID : Z }.

Record ListEntriesParams := mkListEntriesParams {
  ListEntries_Limit : Z;
  ListEntries_Offset : Z }.

Definition with_transfers (rows : list Transfer) (tb : Tables) : Tables :=
  mkTables (accounts tb) rows (entries tb).

Definition with_entries (rows : list Entry) (tb : Tables) : Tables :=
  mkTables (accounts tb) (transfers tb) rows.

(** [SET amount = $1, from_account_id = $2, to_account_id = $3] *)
Definition set_transfer (arg : UpdateTransferParams) (t : Transfer) : Transfer :=
  mkTransfer (Transfer_ID t) (UpdateTransfer_FromAccountID arg)
    (UpdateTransfer_ToAccountID arg) (UpdateTransfer_Amount arg)
    (Transfer_CreatedAt t).

(** [UpdateTransfer :one]:
    [UPDATE transfers SET amount = $1, from_account_id = $2,
     to_account_id = $3 WHERE id = $4 RETURNING *]. *)
Definition UpdateTransfer (arg : UpdateTransferParams) (tb : Tables)
  : Transfer * option error * Tables :=
  let id := UpdateTransfer_ID arg in
  let returning := set_transfer arg <$> where_id Transfer_ID id (transfers tb) in
  (one zero_Transfer returning,
   with_transfers
     (update_where_id Transfer_ID id (set_transfer arg) (transfers tb)) tb).

(** [DeleteTransfer :exec]: [DELETE FROM transfers WHERE id = $1]. *)
Definition DeleteTransfer (id : Z) (tb : Tables) : option error * Tables :=
  (None, with_transfers (delete_where_id Transfer_ID id (transfers tb)) tb).

(** [GetTransfer :one]: [SELECT * FROM transfers WHERE id = $1]. *)
Definition GetTransfer (id : Z) (tb : Tables) : Transfer * option error :=
  one zero_Transfer (where_id Transfer_ID id (transfers tb)).

(** [ListTransfers :many]:
    [SELECT * FROM transfers ORDER BY id LIMIT $1 OFFSET $2]. *)
Definition ListTransfers (arg : ListTransfersParams) (tb : Tables)
  : list Transfer * option error :=
  limit_offset (ListTransfers_Limit arg) (ListTransfers_Offset arg)
    (order_by_id Transfer_ID (transfers tb)).

(** [SET amount = $1] *)
Definition set_entry (arg : UpdateEntryParams) (e : Entry) : Entry :=
  mkEntry (Entry_ID e) (Entry_AccountID e) (UpdateEntry_Amount arg)
    (Entry_CreatedAt e).

(** [UpdateEntry :one]:
    [UPDATE entries SET amount = $1 WHERE id = $2 RETURNING *]. *)
Definition UpdateEntry (arg : UpdateEntryParams) (tb : Tables)
  : Entry * option error * Tables :=
  let id := UpdateEntry_ID arg in
  let returning := set_entry arg <$> where_id Entry_ID id (entries tb) in
  (one zero_Entry returning,
   with_entries (update_where_id Entry_ID id (set_entry arg) (entries tb)) tb).

(** [DeleteEntry :exec]: [DELETE FROM entries WHERE id = $1]. *)
Definition DeleteEntry (id : Z) (tb : Tables) : option error * Tables :=
  (None, with_entries (delete_where_id Entry_ID id (entries tb)) tb).

(** [GetEntry :one]: [SELECT * FROM entries WHERE id = $1]. *)
Definition GetEntry (id : Z) (tb : Tables) : Entry * option error :=
  one zero_Entry (where_id Entry_ID id (entries tb)).

(** [ListEntries :many]:
    [SELECT * FROM entries ORDER BY id Limit $1 OFFSET $2]. *)
Definition ListEntries (arg : ListEntriesParams) (tb : Tables)
  : list Entry * option error :=
  limit_offset (ListEntries_Limit arg) (ListEntries_Offset arg)
    (order_by_id Entry_ID (entries tb)).

(** The identifiers in the two tables are distinct and not above the
    sequences they are drawn from. *)
Definition sequences_ahead (w : World) : Prop :=
  Forall (fun t => Transfer_ID t <= transfers_id_seq w) (transfers (committed w)) /\
  Forall (fun e => Entry_ID e <= entries_id_seq w) (entries (committed w)) /\
  NoDup (Transfer_ID <$> transfers (committed w)) /\
  NoDup (Entry_ID <$> entries (committed w)).

(** The sum of the balances of all accounts. *)
Definition total_balance (tb : Tables) : Z :=
  map_fold (fun _ a sum => Account_Balance a + sum) 0 (accounts tb).

(** Tables with ten transfers from account 1 to account 2, of the amounts
    1 to 10, and four entries on account 1, in no order of identifier. *)
Definition ten_transfers : Tables :=
  mkTables (accounts tables0)
    ((fun i => mkTransfer i 1 2 i 1000) <$> [3; 1; 2; 5; 4; 6; 10; 9; 8; 7])
    ((fun i => mkEntry i 1 (- i) 1000) <$> [2; 1; 4; 3]).

(** A step that works through the handle it is given: it records a
    transfer of 30 from account 1 to account 2 and debits account 1. *)
Definition step_through_handle (q : Queries) (s : unit) (w : World)
  : option error * unit * World :=
  let '(_, err, w1) := CreateTransfer q (mkCreateTransferParams 1 2 30) w in
  match err with
  | Some _ => (err, s, w1)
  | None =>
      let '(_, err, w2) :=
        AddAccountBalance q (mkAddAccountBalanceParams (-30) 1) w1 in
      (err, s, w2)
  end.

(** The store that loses the connection at its third call. *)
Definition world_third_call_fails : World :=
  with_faults [None; None; Some ErrConnDone] world0.

(** * Proofs *)

(** ** What each call on the store does *)

Lemma in_int64b_spec z : in_int64b z = true <-> in_int64 z.
Proof. unfold in_int64b, in_int64. rewrite andb_true_iff, !Z.leb_le. tauto. Qed.

Lemma neg64_opp a : in_int64 a -> a <> min_int64 -> neg64 a = - a.
Proof.
  unfold in_int64, neg64, wrap64, min_int64, max_int64. intros Ha Hm.
  rewrite Z.mod_small; lia.
Qed.

Lemma neg64_min : neg64 min_int64 = min_int64.
Proof. reflexivity. Qed.

Lemma BeginTx_inv w err w1 :
  BeginTx w = (err, w1) ->
  trace w1 = trace w ++ [EvBeginTx] /\
  committed w1 = committed w /\
  transfers_id_seq w1 = transfers_id_seq w /\
  entries_id_seq w1 = entries_id_seq w /\
  clock w1 = clock w /\
  (err = None -> pending w1 = Some []).
Proof.
  unfold BeginTx, roundtrip. destruct w as [tb pend tseq eseq clk [|[?|] ?] tr];
    cbn; intros [= <- <-]; cbn; repeat split; congruence.
Qed.

Lemma Rollback_inv w err w1 :
  Rollback w = (err, w1) ->
  trace w1 = trace w ++ [EvRollback] /\
  committed w1 = committed w /\
  transfers_id_seq w1 = transfers_id_seq w /\
  entries_id_seq w1 = entries_id_seq w /\
  clock w1 = clock w.
Proof.
  unfold Rollback, roundtrip.
  destruct w as [tb [?|] tseq eseq clk [|[?|] ?] tr];
    cbn; intros [= <- <-]; cbn; repeat split.
Qed.

Lemma Commit_inv w err w1 :
  Commit w = (err, w1) ->
  trace w1 = trace w ++ [EvCommit] /\
  transfers_id_seq w1 = transfers_id_seq w /\
  entries_id_seq w1 = entries_id_seq w /\
  clock w1 = clock w /\
  (committed w1 = committed w \/
   err = None /\ exists ws, pending w = Some ws /\
     committed w1 = foldl apply_write (committed w) ws).
Proof.
  unfold Commit, roundtrip.
  destruct w as [tb [?|] tseq eseq clk [|[?|] ?] tr];
    cbn; intros [= <- <-]; cbn; repeat split; eauto.
Qed.

Lemma CreateTransfer_pool_inv arg w t err w1 :
  CreateTransfer (New Pool) arg w = (t, err, w1) ->
  called (EvCreateTransfer Pool arg) w w1 /\
  entries_id_seq w1 = entries_id_seq w /\
  ((exists e, err = Some e) /\ t = zero_Transfer /\
   committed w1 = committed w /\ transfers_id_seq w1 = transfers_id_seq w
   \/
   err = None /\
   t = mkTransfer (transfers_id_seq w + 1) (FromAccountID arg)
         (ToAccountID arg) (Amount arg) (clock w) /\
   committed w1 = insert_transfer t (committed w) /\
   transfers_id_seq w1 = transfers_id_seq w + 1).
Proof.
  unfold CreateTransfer, roundtrip, called.
  destruct w as [tb pend tseq eseq clk [|[?|] ?] tr];
    cbn; intros [= <- <- <-]; cbn; repeat split; eauto 10.
Qed.

Lemma CreateEntry_pool_inv arg w e err w1 :
  CreateEntry (New Pool) arg w = (e, err, w1) ->
  called (EvCreateEntry Pool arg) w w1 /\
  transfers_id_seq w1 = transfers_id_seq w /\
  ((exists e', err = Some e') /\ e = zero_Entry /\
   committed w1 = committed w /\ entries_id_seq w1 = entries_id_seq w
   \/
   err = None /\
   e = mkEntry (entries_id_seq w + 1) (CreateEntry_AccountID arg)
         (CreateEntry_Amount arg) (clock w) /\
   committed w1 = insert_entry e (committed w) /\
   entries_id_seq w1 = entries_id_seq w + 1).
Proof.
  unfold CreateEntry, roundtrip, called.
  destruct w as [tb pend tseq eseq clk [|[?|] ?] tr];
    cbn; intros [= <- <- <-]; cbn; repeat split; eauto 10.
Qed.

Lemma AddAccountBalance_pool_inv id delta w a err w1 :
  AddAccountBalance (New Pool) (mkAddAccountBalanceParams delta id) w
  = (a, err, w1) ->
  called (update_event (id, delta)) w w1 /\
  transfers_id_seq w1 = transfers_id_seq w /\
  entries_id_seq w1 = entries_id_seq w /\
  ((exists e, err = Some e) /\ a = zero_Account /\ committed w1 = committed w
   \/
   err = None /\ update_ok (committed w) (id, delta) /\
   a = updated (committed w) (id, delta) /\
   committed w1 = add_balance id delta (committed w)).
Proof.
  unfold AddAccountBalance, roundtrip, called, update_ok, updated, update_event.
  destruct w as [tb pend tseq eseq clk fl tr]; cbn.
  destruct fl as [|[?|] ?]; cbn.
  all: try (intros [= <- <- <-]; cbn; repeat split; eauto 10; fail).
  all: destruct (accounts tb !! id) as [acc|] eqn:Hlk; cbn;
    [destruct (in_int64b (Account_Balance acc + delta)) eqn:Hrg; cbn|].
  all: intros [= <- <- <-]; cbn; repeat split; eauto 10.
  all: right; repeat split; eauto; exists acc; split; auto;
    by apply in_int64b_spec.
Qed.

(** The three ways [AddAccountBalanceOrder] ends: the first update fails,
    the second one fails, both are done. *)
Lemma AddAccountBalanceOrder_inv a1 a2 amt w fa ta err w' :
  AddAccountBalanceOrder NewStore a1 a2 amt w = (fa, ta, err, w') ->
  let p := mkCreateTransferParams a1 a2 amt in
  let u1 := first_update p in
  let u2 := second_update p in
  let tb1 := add_balance u1.1 u1.2 (committed w) in
  pending w' = pending w /\ clock w' = clock w /\
  transfers_id_seq w' = transfers_id_seq w /\
  entries_id_seq w' = entries_id_seq w /\
  ((exists e, err = Some e) /\
   fa = zero_Account /\ ta = zero_Account /\
   committed w' = committed w /\
   trace w' = trace w ++ [update_event u1]
   \/
   (exists e, err = Some e) /\
   update_ok (committed w) u1 /\
   fa = (if a1 <? a2 then updated (committed w) u1 else zero_Account) /\
   ta = (if a1 <? a2 then zero_Account else updated (committed w) u1) /\
   committed w' = tb1 /\
   trace w' = trace w ++ [update_event u1; update_event u2]
   \/
   err = None /\
   update_ok (committed w) u1 /\ update_ok tb1 u2 /\
   fa = (if a1 <? a2 then updated (committed w) u1 else updated tb1 u2) /\
   ta = (if a1 <? a2 then updated tb1 u2 else updated (committed w) u1) /\
   committed w' = add_balance u2.1 u2.2 tb1 /\
   trace w' = trace w ++ [update_event u1; update_event u2]).
Proof.
  unfold AddAccountBalanceOrder, first_update, second_update. cbn.
  destruct (a1 <? a2); cbn.
  all: match goal with
       | |- context [AddAccountBalance ?q ?arg ?x] =>
           destruct (AddAccountBalance q arg x) as [[r1 e1] w1] eqn:H1
       end;
    apply AddAccountBalance_pool_inv in H1;
    destruct H1 as ((Ht1 & Hp1 & Hk1) & Hs1 & He1 & H1).
  all: destruct H1 as [([e ->] & -> & Hc1) | (-> & Hok1 & -> & Hc1)].
  all: try (intros [= <- <- <- <-]; repeat split; try congruence;
            left; repeat split; eauto; fail).
  all: match goal with
       | |- context [AddAccountBalance ?q ?arg ?x] =>
           destruct (AddAccountBalance q arg x) as [[r2 e2] w2] eqn:H2
       end;
    apply AddAccountBalance_pool_inv in H2;
    destruct H2 as ((Ht2 & Hp2 & Hk2) & Hs2 & He2 & H2).
  all: intros [= <- <- <- <-]; repeat split; try congruence.
  all: destruct H2 as [([e ->] & -> & Hc2) | (-> & Hok2 & -> & Hc2)];
    [right; left | right; right]; rewrite <- ?Hc1;
    repeat split; eauto; try congruence.
  all: rewrite Ht2, Ht1, <- app_assoc; reflexivity.
Qed.

(** ** The ways a transfer ends *)

Ltac chase1 f :=
  match goal with
  | H : f ?x = _ |- context [f ?x] => rewrite H
  | H : f ?x = _, H' : context [f ?x] |- _ =>
      lazymatch H' with H => fail | _ => rewrite H in H' end
  end.

Ltac chase :=
  repeat first
    [ chase1 committed | chase1 trace | chase1 clock | chase1 pending
    | chase1 transfers_id_seq | chase1 entries_id_seq ].

Ltac trace_eq := cbn; rewrite <- ?app_assoc; reflexivity.

Ltac stage k :=
  exists k; unfold body_outcome, result_after, recorded, writes, calls,
    new_transfer, new_from_entry, new_to_entry;
  cbn; chase;
  repeat match goal with
    | |- _ /\ _ => split
    | |- (_ <= _)%nat -> _ => intros ?; try lia
    | |- @eq Z _ _ => lia
    | |- @eq (list Event) _ _ => trace_eq
    | |- @eq TransferTxResult _ _ =>
        try match goal with
            | |- context [if ?a <? ?b then _ else _] => destruct (a <? b)
            end;
        reflexivity
    | |- @eq _ _ _ => reflexivity
    | |- update_ok _ _ => assumption
    | |- _ \/ _ => first [left; split; [lia | eauto] | right; split; reflexivity]
    end.

Lemma TransferTx_fn_inv p q w res err w' :
  TransferTx_fn NewStore p q zero_TransferTxResult w = (err, res, w') ->
  exists k : nat,
    body_outcome p w k res w' /\
    pending w' = pending w /\
    trace w' = trace w ++ take (S k) (calls p) /\
    ((k < 5)%nat /\ (exists e, err = Some e) \/ k = 5%nat /\ err = None).
Proof.
  destruct p as [from to amt]. unfold TransferTx_fn. cbn.
  destruct (CreateTransfer _ _ w) as [[t e1] w1] eqn:H1.
  apply CreateTransfer_pool_inv in H1.
  destruct H1 as ((Ht1 & Hp1 & Hk1) & Hes1 & H1).
  destruct H1 as [([e ->] & -> & Hc1 & Hts1) | (-> & -> & Hc1 & Hts1)].
  { intros [= <- <- <-]. stage 0%nat. }
  cbn.
  destruct (CreateEntry _ _ w1) as [[fe e2] w2] eqn:H2.
  apply CreateEntry_pool_inv in H2.
  destruct H2 as ((Ht2 & Hp2 & Hk2) & Hts2 & H2).
  destruct H2 as [([e ->] & -> & Hc2 & Hes2) | (-> & -> & Hc2 & Hes2)].
  { intros [= <- <- <-]. stage 1%nat. }
  cbn.
  destruct (CreateEntry _ _ w2) as [[te e3] w3] eqn:H3.
  apply CreateEntry_pool_inv in H3.
  destruct H3 as ((Ht3 & Hp3 & Hk3) & Hts3 & H3).
  destruct H3 as [([e ->] & -> & Hc3 & Hes3) | (-> & -> & Hc3 & Hes3)].
  { intros [= <- <- <-]. stage 2%nat. }
  cbn.
  destruct (AddAccountBalanceOrder _ _ _ _ w3) as [[[fa ta] e4] w4] eqn:H4.
  apply AddAccountBalanceOrder_inv in H4. cbn zeta in H4.
  destruct H4 as (Hp4 & Hk4 & Hts4 & Hes4 & H4).
  destruct H4 as [([e ->] & -> & -> & Hc4 & Ht4)
                 |[([e ->] & Hok1 & -> & -> & Hc4 & Ht4)
                 | (-> & Hok1 & Hok2 & -> & -> & Hc4 & Ht4)]].
  - intros [= <- <- <-]. stage 3%nat.
  - intros [= <- <- <-]. stage 4%nat.
  - intros [= <- <- <-]. stage 5%nat.
Qed.

(** [execTx], whatever the closure: the transaction is opened, the closure
    runs once on the handle of the transaction, and the transaction is
    rolled back or committed. *)
Lemma execTx_inv {S : Type} (store : SQLStore)
  (fn : Queries -> S -> World -> option error * S * World) s w err s' w' :
  execTx store fn s w = (err, s', w') ->
  (exists e, BeginTx w = (Some e, w') /\ err = Some e /\ s' = s)
  \/
  exists w1 w2 stepErr,
    BeginTx w = (None, w1) /\ fn (New InTx) s w1 = (stepErr, s', w2) /\
    match stepErr with
    | Some e =>
        exists errRb, Rollback w2 = (errRb, w') /\
          err = Some (match errRb with
                      | Some r => Errorf_txErr_rbErr e r
                      | None => e
                      end)
    | None => Commit w2 = (err, w')
    end.
Proof.
  unfold execTx.
  destruct (BeginTx w) as [[e|] w1] eqn:Hb.
  { intros [= <- <- <-]. left. eauto. }
  destruct (fn (New InTx) s w1) as [[[e|] s2] w2] eqn:Hfn.
  - destruct (Rollback w2) as [[r|] w3] eqn:Hr; intros [= <- <- <-];
      right; exists w1, w2, (Some e); repeat split; eauto.
  - destruct (Commit w2) as [e w3] eqn:Hc; intros [= <- <- <-];
      right; exists w1, w2, None; repeat split; eauto.
Qed.

Lemma result_after_same_db w w1 p k :
  committed w1 = committed w ->
  transfers_id_seq w1 = transfers_id_seq w ->
  entries_id_seq w1 = entries_id_seq w ->
  clock w1 = clock w ->
  result_after w1 p k = result_after w p k /\
  forall j, recorded w1 p j = recorded w p j.
Proof.
  intros Hc Hts Hes Hk.
  unfold result_after, recorded, writes, new_transfer, new_from_entry,
    new_to_entry.
  rewrite Hc, Hts, Hes, Hk. split; reflexivity.
Qed.

Lemma TransferTx_outcome p w res err w' :
  TransferTx NewStore p w = (res, err, w') -> outcome p w res err w'.
Proof.
  unfold TransferTx.
  destruct (execTx _ _ _ w) as [[err0 res0] w0] eqn:Hx.
  intros [= <- <- <-].
  apply execTx_inv in Hx.
  destruct Hx as [(e & Hb & -> & ->) | (w1 & w2 & stepErr & Hb & Hfn & Hend)].
  { apply BeginTx_inv in Hb. left. intuition eauto. }
  right.
  apply BeginTx_inv in Hb. destruct Hb as (Htb & Hcb & Htsb & Hesb & Hkb & Hpb).
  specialize (Hpb eq_refl).
  apply TransferTx_fn_inv in Hfn.
  destruct Hfn as (k & Hbody & Hp2 & Ht2 & Hk).
  destruct (result_after_same_db w w1 p k Hcb Htsb Hesb Hkb) as [Hres Hrec].
  exists k.
  unfold body_outcome in *. rewrite Hres, !Hrec, Htsb, Hesb, Hkb in Hbody.
  destruct Hbody as (Hr & Hc2 & Hts2 & Hes2 & Hk2 & Hu1 & Hu2).
  destruct Hk as [(Hlt & e & ->) | (-> & ->)].
  - destruct Hend as (errRb & Hrb & ->).
    apply Rollback_inv in Hrb. destruct Hrb as (Ht3 & Hc3 & Hts3 & Hes3 & Hk3).
    split.
    + repeat split; try congruence; auto.
    + left. split; [done|]. split.
      * exists e. unfold step_error. destruct errRb; eauto.
      * rewrite Ht3, Ht2, Htb, <- !app_assoc. reflexivity.
  - apply Commit_inv in Hend. destruct Hend as (Ht3 & Hts3 & Hes3 & Hk3 & Hc3).
    assert (committed w0 = committed w2) as Hc3'.
    { destruct Hc3 as [?|(_ & ws & Hws & ->)]; [done|].
      rewrite Hp2, Hpb in Hws. by injection Hws as <-. }
    split.
    + repeat split; try congruence; auto.
    + right. split; [done|].
      rewrite Ht3, Ht2, Htb, <- !app_assoc. reflexivity.
Qed.

(** ** Tables after the statements *)

Lemma accounts_add_balance id delta tb k :
  accounts (add_balance id delta tb) !! k =
  if decide (id = k)
  then (fun a => set_balance (Account_Balance a + delta) a) <$> accounts tb !! k
  else accounts tb !! k.
Proof.
  unfold add_balance. cbn. destruct (decide (id = k)) as [->|Hne].
  - apply lookup_alter_eq.
  - by apply lookup_alter_ne.
Qed.

Lemma accounts_recorded_3 w p : accounts (recorded w p 3) = accounts (committed w).
Proof. reflexivity. Qed.

Lemma recorded_4 w p :
  recorded w p 4 =
  add_balance (first_update p).1 (first_update p).2 (recorded w p 3).
Proof. reflexivity. Qed.

Lemma recorded_5 w p :
  recorded w p 5 =
  add_balance (second_update p).1 (second_update p).2 (recorded w p 4).
Proof. reflexivity. Qed.

Lemma transfers_recorded w p k :
  transfers (recorded w p k) =
  transfers (committed w) ++ (if (1 <=? k)%nat then [new_transfer w p] else []).
Proof.
  do 6 (destruct k as [|k]; [cbn; rewrite ?app_nil_r; reflexivity|]).
  reflexivity.
Qed.

Lemma entries_recorded w p k :
  entries (recorded w p k) =
  entries (committed w) ++
  take (k - 1) [new_from_entry w p; new_to_entry w p].
Proof.
  do 6 (destruct k as [|k];
        [cbn; rewrite <- ?app_assoc, ?app_nil_r; reflexivity|]).
  cbn. rewrite <- ?app_assoc. reflexivity.
Qed.

(** A call that returns no error has run all five statements and issued a
    commit. *)
Lemma TransferTx_ok p w res w' :
  TransferTx NewStore p w = (res, None, w') ->
  body_outcome p w 5 res w' /\
  trace w' = trace w ++ EvBeginTx :: calls p ++ [EvCommit].
Proof.
  intros H. apply TransferTx_outcome in H.
  destruct H as [([e He] & _) | (k & Hb & [(_ & (e & He) & _) | (-> & Ht)])].
  - discriminate.
  - destruct He as [He | (r & He)]; discriminate.
  - auto.
Qed.

(** ** The claims *)

(** C1. When [TransferTx] succeeds on a valid input, the destination
    balance has grown by the amount and the source balance has shrunk by
    it, the two entries created carry [-amount] for the source and
    [+amount] for the destination and sum to zero, and the result carries
    the account rows as they are after the updates. *)
Theorem TransferTx_success_moves_amount p w res w' :
  valid_input p ->
  TransferTx NewStore p w = (res, None, w') ->
  exists accF accT accF' accT',
    accounts (committed w) !! FromAccountID p = Some accF /\
    accounts (committed w) !! ToAccountID p = Some accT /\
    accounts (committed w') !! FromAccountID p = Some accF' /\
    accounts (committed w') !! ToAccountID p = Some accT' /\
    Account_Balance accT' = Account_Balance accT + Amount p /\
    Account_Balance accF' = Account_Balance accF - Amount p /\
    entries (committed w') =
      entries (committed w) ++ [res_FromEntry res; res_ToEntry res] /\
    Entry_AccountID (res_FromEntry res) = FromAccountID p /\
    Entry_Amount (res_FromEntry res) = - Amount p /\
    Entry_AccountID (res_ToEntry res) = ToAccountID p /\
    Entry_Amount (res_ToEntry res) = Amount p /\
    Entry_Amount (res_FromEntry res) + Entry_Amount (res_ToEntry res) = 0 /\
    res_FromAccount res = accF' /\
    res_ToAccount res = accT'.
Proof.
  intros [Hamt Hne] H. apply TransferTx_ok in H. destruct H as [H _].
  destruct H as (-> & Hc & _ & _ & _ & Hu1 & Hu2).
  specialize (Hu1 ltac:(lia)). specialize (Hu2 ltac:(lia)).
  assert (neg64 (Amount p) = - Amount p) as Hneg.
  { apply neg64_opp; unfold in_int64, min_int64, max_int64 in *; lia. }
  destruct Hu1 as (a1 & Hl1 & _), Hu2 as (a2 & Hl2 & _).
  rewrite Hc, entries_recorded, recorded_5, recorded_4.
  rewrite recorded_4 in Hl2.
  rewrite accounts_add_balance in Hl2.
  rewrite !accounts_add_balance, !accounts_recorded_3 in *.
  unfold result_after, updated. cbn.
  unfold first_update, second_update in *.
  destruct (FromAccountID p <? ToAccountID p) eqn:Hlt; cbn in *.
  all: repeat case_decide; try congruence.
  all: rewrite ?lookup_alter_ne by congruence.
  all: rewrite Hl1, Hl2; cbn.
  - exists a1, a2. do 2 eexists. repeat split; cbn; lia.
  - exists a2, a1. do 2 eexists. repeat split; cbn; lia.
Qed.

Lemma TransferTx_success_moves_amount_witness :
  exists accF accT accF' accT',
    accounts (committed world0) !! 1 = Some accF /\
    accounts (committed world0) !! 2 = Some accT /\
    accounts (committed example_transfer.2) !! 1 = Some accF' /\
    accounts (committed example_transfer.2) !! 2 = Some accT' /\
    Account_Balance accT' = Account_Balance accT + 30 /\
    Account_Balance accF' = Account_Balance accF - 30 /\
    entries (committed example_transfer.2) =
      entries (committed world0) ++
      [res_FromEntry example_transfer.1.1; res_ToEntry example_transfer.1.1] /\
    Entry_AccountID (res_FromEntry example_transfer.1.1) = 1 /\
    Entry_Amount (res_FromEntry example_transfer.1.1) = - 30 /\
    Entry_AccountID (res_ToEntry example_transfer.1.1) = 2 /\
    Entry_Amount (res_ToEntry example_transfer.1.1) = 30 /\
    Entry_Amount (res_FromEntry example_transfer.1.1) +
    Entry_Amount (res_ToEntry example_transfer.1.1) = 0 /\
    res_FromAccount example_transfer.1.1 = accF' /\
    res_ToAccount example_transfer.1.1 = accT'.
Proof.
  apply (TransferTx_success_moves_amount (mkCreateTransferParams 1 2 30) world0
           example_transfer.1.1 example_transfer.2).
  - unfold valid_input. cbn. split; [split; [reflexivity | discriminate] | discriminate].
  - vm_compute. reflexivity.
Defined.

Lemma AddAccountBalanceOrder_trace a1 a2 amt w fa ta err w' :
  a1 <> a2 ->
  AddAccountBalanceOrder NewStore a1 a2 amt w = (fa, ta, err, w') ->
  exists n : nat,
    (1 <= n <= 2)%nat /\ (err = None -> n = 2%nat) /\
    (n = 2%nat \/ err <> None) /\
    trace w' =
    trace w ++
    take n [role_update a1 amt (Z.min a1 a2); role_update a1 amt (Z.max a1 a2)].
Proof.
  intros Hne H. apply AddAccountBalanceOrder_inv in H. cbn zeta in H.
  destruct H as (_ & _ & _ & _ & H).
  assert (update_event (first_update (mkCreateTransferParams a1 a2 amt))
          = role_update a1 amt (Z.min a1 a2) /\
          update_event (second_update (mkCreateTransferParams a1 a2 amt))
          = role_update a1 amt (Z.max a1 a2)) as [E1 E2].
  { unfold first_update, second_update, update_event, role_update. cbn.
    destruct (Z.ltb_spec a1 a2).
    - rewrite Z.min_l, Z.max_r by lia. cbn.
      repeat case_decide; first [lia | done].
    - rewrite Z.min_r, Z.max_l by lia. cbn.
      repeat case_decide; first [lia | done]. }
  rewrite E1, E2 in H.
  destruct H as [([e ->] & _ & _ & _ & Ht)
                |[([e ->] & _ & _ & _ & _ & Ht)
                 |(-> & _ & _ & _ & _ & _ & Ht)]].
  - exists 1%nat. repeat split; try lia; try done; by right.
  - exists 2%nat. repeat split; try lia; try done; by left.
  - exists 2%nat. repeat split; try lia; try done; by left.
Qed.

(** C3. For two distinct accounts [a] and [b], in a transfer from [a] to
    [b] as in one from [b] to [a], the balance update of the account with
    the smaller identifier is issued first and that of the larger one
    second (the second is not issued when the first fails); each update
    carries the delta of the role of its account, [-amount] for the source
    and [+amount] for the destination. *)
Theorem balance_updates_ordered_by_identifier
  a b amt1 amt2 w1 w2 fa1 ta1 err1 w1' fa2 ta2 err2 w2' :
  a <> b ->
  AddAccountBalanceOrder NewStore a b amt1 w1 = (fa1, ta1, err1, w1') ->
  AddAccountBalanceOrder NewStore b a amt2 w2 = (fa2, ta2, err2, w2') ->
  exists n1 n2 : nat,
    (1 <= n1 <= 2)%nat /\ (1 <= n2 <= 2)%nat /\
    (err1 = None -> n1 = 2%nat) /\ (err2 = None -> n2 = 2%nat) /\
    (n1 = 2%nat \/ err1 <> None) /\ (n2 = 2%nat \/ err2 <> None) /\
    trace w1' =
      trace w1 ++
      take n1 [role_update a amt1 (Z.min a b); role_update a amt1 (Z.max a b)] /\
    trace w2' =
      trace w2 ++
      take n2 [role_update b amt2 (Z.min a b); role_update b amt2 (Z.max a b)].
Proof.
  intros Hne H1 H2.
  apply AddAccountBalanceOrder_trace in H1; [|done].
  apply AddAccountBalanceOrder_trace in H2; [|done].
  destruct H1 as (n1 & ? & ? & ? & ?), H2 as (n2 & ? & ? & ? & Ht2).
  rewrite (Z.min_comm b a), (Z.max_comm b a) in Ht2.
  exists n1, n2. repeat split; auto; lia.
Qed.

Lemma balance_updates_ordered_by_identifier_witness :
  exists n1 n2 : nat,
    (1 <= n1 <= 2)%nat /\ (1 <= n2 <= 2)%nat /\
    (@None error = None -> n1 = 2%nat) /\ (@None error = None -> n2 = 2%nat) /\
    (n1 = 2%nat \/ @None error <> None) /\ (n2 = 2%nat \/ @None error <> None) /\
    trace (AddAccountBalanceOrder NewStore 3 7 10 world37).2 =
      trace world37 ++
      take n1 [role_update 3 10 (Z.min 3 7); role_update 3 10 (Z.max 3 7)] /\
    trace (AddAccountBalanceOrder NewStore 7 3 10 world37).2 =
      trace world37 ++
      take n2 [role_update 7 10 (Z.min 3 7); role_update 7 10 (Z.max 3 7)].
Proof.
  apply (balance_updates_ordered_by_identifier 3 7 10 10 world37 world37
           (AddAccountBalanceOrder NewStore 3 7 10 world37).1.1.1
           (AddAccountBalanceOrder NewStore 3 7 10 world37).1.1.2
           None
           (AddAccountBalanceOrder NewStore 3 7 10 world37).2
           (AddAccountBalanceOrder NewStore 7 3 10 world37).1.1.1
           (AddAccountBalanceOrder NewStore 7 3 10 world37).1.1.2
           None
           (AddAccountBalanceOrder NewStore 7 3 10 world37).2).
  - discriminate.
  - vm_compute. reflexivity.
  - vm_compute. reflexivity.
Defined.

Example updates_3_to_7 :
  trace (AddAccountBalanceOrder NewStore 3 7 10 world37).2 =
  [EvAddAccountBalance Pool (mkAddAccountBalanceParams (-10) 3);
   EvAddAccountBalance Pool (mkAddAccountBalanceParams 10 7)].
Proof. vm_compute. reflexivity. Qed.

Example updates_7_to_3 :
  trace (AddAccountBalanceOrder NewStore 7 3 10 world37).2 =
  [EvAddAccountBalance Pool (mkAddAccountBalanceParams 10 3);
   EvAddAccountBalance Pool (mkAddAccountBalanceParams (-10) 7)].
Proof. vm_compute. reflexivity. Qed.

Lemma append_assoc (a b c : string) :
  String.append a (String.append b c) = String.append (String.append a b) c.
Proof.
  induction a as [|x a IH]; [reflexivity|].
  change (String x (String.append a (String.append b c)) =
          String x (String.append (String.append a b) c)).
  by rewrite IH.
Qed.

Lemma append_nil_r (a : string) : String.append a "" = a.
Proof.
  induction a as [|x a IH]; [reflexivity|].
  change (String x (String.append a "") = String x a). by rewrite IH.
Qed.

Lemma Errorf_txErr_rbErr_contains err errRb :
  contains (Error (Errorf_txErr_rbErr err errRb)) (Error err) /\
  contains (Error (Errorf_txErr_rbErr err errRb)) (Error errRb).
Proof.
  unfold Errorf_txErr_rbErr. cbn [Error]. split.
  - exists "txErr: ", (String.append ", rbErr: " (Error errRb)). reflexivity.
  - exists (String.append "txErr: " (String.append (Error err) ", rbErr: ")), "".
    by rewrite append_nil_r, <- !append_assoc.
Qed.

(** C4. Once the transaction is open and the step [fn] has run on its
    handle: if the step fails and the rollback fails too, [execTx] returns
    an error whose text is made of the texts of both errors; if the step
    fails and the rollback succeeds, it returns the error of the step
    itself; if the step succeeds, it returns what the commit returns. *)
Theorem execTx_errors {S : Type} (store : SQLStore)
  (fn : Queries -> S -> World -> option error * S * World)
  (s : S) (w w1 : World) (stepErr : option error) (s2 : S) (w2 : World) :
  BeginTx w = (None, w1) ->
  fn (New InTx) s w1 = (stepErr, s2, w2) ->
  (forall e r w3,
      stepErr = Some e -> Rollback w2 = (Some r, w3) ->
      exists c,
        execTx store fn s w = (Some c, s2, w3) /\
        c = Errorf_txErr_rbErr e r /\
        contains (Error c) (Error e) /\ contains (Error c) (Error r)) /\
  (forall e w3,
      stepErr = Some e -> Rollback w2 = (None, w3) ->
      execTx store fn s w = (Some e, s2, w3)) /\
  (forall errC w3,
      stepErr = None -> Commit w2 = (errC, w3) ->
      execTx store fn s w = (errC, s2, w3)).
Proof.
  intros Hb Hfn. unfold execTx. rewrite Hb, Hfn.
  repeat split.
  - intros e r w3 -> Hr. rewrite Hr. eexists. split; [reflexivity|].
    split; [reflexivity|]. apply Errorf_txErr_rbErr_contains.
  - intros e w3 -> Hr. by rewrite Hr.
  - intros errC w3 -> Hc. by rewrite Hc.
Qed.

Lemma execTx_errors_witness :
  (forall e r w3,
      Some ErrNoRows = Some e ->
      Rollback (BeginTx world_rollback_fails).2 = (Some r, w3) ->
      exists c,
        execTx NewStore failing_step tt world_rollback_fails = (Some c, tt, w3) /\
        c = Errorf_txErr_rbErr e r /\
        contains (Error c) (Error e) /\ contains (Error c) (Error r)) /\
  (forall e w3,
      Some ErrNoRows = Some e ->
      Rollback (BeginTx world_rollback_fails).2 = (None, w3) ->
      execTx NewStore failing_step tt world_rollback_fails = (Some e, tt, w3)) /\
  (forall errC w3,
      Some ErrNoRows = None ->
      Commit (BeginTx world_rollback_fails).2 = (errC, w3) ->
      execTx NewStore failing_step tt world_rollback_fails = (errC, tt, w3)).
Proof.
  apply (execTx_errors NewStore failing_step tt world_rollback_fails
           (BeginTx world_rollback_fails).2 (Some ErrNoRows) tt
           (BeginTx world_rollback_fails).2).
  - reflexivity.
  - reflexivity.
Defined.

Example execTx_both_errors :
  (execTx NewStore failing_step tt world_rollback_fails).1.1 =
  Some (errorString
          "txErr: sql: no rows in result set, rbErr: sql: database is closed").
Proof. reflexivity. Qed.

(** The effect of a successful transfer between two distinct accounts. *)
Lemma TransferTx_ok_effect p w res w' :
  FromAccountID p <> ToAccountID p ->
  TransferTx NewStore p w = (res, None, w') ->
  exists aF aT,
    accounts (committed w) !! FromAccountID p = Some aF /\
    accounts (committed w) !! ToAccountID p = Some aT /\
    in_int64 (Account_Balance aF + neg64 (Amount p)) /\
    in_int64 (Account_Balance aT + Amount p) /\
    res =
      mkTransferTxResult (new_transfer w p)
        (set_balance (Account_Balance aF + neg64 (Amount p)) aF)
        (set_balance (Account_Balance aT + Amount p) aT)
        (new_from_entry w p) (new_to_entry w p) /\
    accounts (committed w') !! FromAccountID p = Some (res_FromAccount res) /\
    accounts (committed w') !! ToAccountID p = Some (res_ToAccount res) /\
    transfers (committed w') = transfers (committed w) ++ [new_transfer w p] /\
    entries (committed w') =
      entries (committed w) ++ [new_from_entry w p; new_to_entry w p] /\
    transfers_id_seq w' = transfers_id_seq w + 1 /\
    entries_id_seq w' = entries_id_seq w + 2 /\
    clock w' = clock w.
Proof.
  intros Hne H. apply TransferTx_ok in H. destruct H as [H _].
  destruct H as (-> & Hc & Hts & Hes & Hk & Hu1 & Hu2).
  specialize (Hu1 ltac:(lia)). specialize (Hu2 ltac:(lia)).
  destruct Hu1 as (a1 & Hl1 & Hr1), Hu2 as (a2 & Hl2 & Hr2).
  rewrite Hc, transfers_recorded, entries_recorded, recorded_5, recorded_4.
  rewrite recorded_4 in Hl2.
  rewrite accounts_add_balance in Hl2.
  rewrite !accounts_add_balance, !accounts_recorded_3 in *.
  unfold result_after, updated. cbn.
  unfold first_update, second_update in *.
  destruct (FromAccountID p <? ToAccountID p) eqn:Hlt; cbn in *.
  all: repeat case_decide; try congruence.
  all: rewrite ?lookup_alter_ne by congruence.
  all: rewrite Hl1, Hl2; cbn.
  - exists a1, a2. repeat split; auto; first [apply Hr1 | apply Hr2].
  - exists a2, a1. repeat split; auto; first [apply Hr1 | apply Hr2].
Qed.

(** Two transfers of 30 from account 1 to itself both succeed and leave
    its balance at 100. *)
Lemma same_account_not_applied_twice :
  ~ applied_twice (mkCreateTransferParams 1 1 30) world0.
Proof.
  intros H.
  pose (run1 := TransferTx NewStore (mkCreateTransferParams 1 1 30) world0).
  pose (run2 := TransferTx NewStore (mkCreateTransferParams 1 1 30) run1.2).
  destruct (H run1.1.1 run1.2 run2.1.1 run2.2 100 100) as [Hf _];
    try (vm_compute; reflexivity).
  vm_compute in Hf. discriminate Hf.
Qed.

(** C6 (amended). Two successive calls with the same arguments between two
    distinct accounts, both successful, create two transfer rows with
    different identifiers and four entries with different identifiers,
    and move the amount twice: the source balance has decreased by
    [2 * amount] and the destination balance has increased by it. *)
Theorem TransferTx_twice p w r1 w1 r2 w2 aF aT :
  FromAccountID p <> ToAccountID p ->
  in_int64 (Amount p) ->
  accounts (committed w) !! FromAccountID p = Some aF ->
  in_int64 (Account_Balance aF) ->
  accounts (committed w) !! ToAccountID p = Some aT ->
  TransferTx NewStore p w = (r1, None, w1) ->
  TransferTx NewStore p w1 = (r2, None, w2) ->
  transfers (committed w2) =
    transfers (committed w) ++ [res_Transfer r1; res_Transfer r2] /\
  Transfer_ID (res_Transfer r1) <> Transfer_ID (res_Transfer r2) /\
  entries (committed w2) =
    entries (committed w) ++
    [res_FromEntry r1; res_ToEntry r1; res_FromEntry r2; res_ToEntry r2] /\
  NoDup (Entry_ID <$>
         [res_FromEntry r1; res_ToEntry r1; res_FromEntry r2; res_ToEntry r2]) /\
  balance_of (FromAccountID p) w2 = Some (Account_Balance aF - 2 * Amount p) /\
  balance_of (ToAccountID p) w2 = Some (Account_Balance aT + 2 * Amount p).
Proof.
  intros Hne Hamt HF HbF HT H1 H2.
  apply TransferTx_ok_effect in H1; [|done].
  apply TransferTx_ok_effect in H2; [|done].
  destruct H1 as (aF1 & aT1 & HF1 & HT1 & HrF1 & HrT1 & -> & HF1' & HT1'
                  & Htr1 & Hen1 & Hts1 & Hes1 & Hk1).
  destruct H2 as (aF2 & aT2 & HF2 & HT2 & HrF2 & HrT2 & -> & HF2' & HT2'
                  & Htr2 & Hen2 & Hts2 & Hes2 & Hk2).
  cbn in *.
  assert (aF1 = aF) as -> by congruence.
  assert (aT1 = aT) as -> by congruence.
  assert (aF2 = set_balance (Account_Balance aF + neg64 (Amount p)) aF)
    as -> by congruence.
  assert (aT2 = set_balance (Account_Balance aT + Amount p) aT)
    as -> by congruence.
  cbn in *.
  assert (Amount p <> min_int64) as Hmin.
  { intros E. rewrite E, neg64_min in *.
    unfold in_int64, min_int64, max_int64 in *. lia. }
  rewrite (neg64_opp _ Hamt Hmin) in *.
  unfold balance_of. rewrite HF2', HT2', Htr2, Htr1, Hen2, Hen1. cbn.
  rewrite <- !app_assoc. cbn.
  repeat split.
  - lia.
  - rewrite Hes1.
    repeat (apply NoDup_cons; split;
            [rewrite ?not_elem_of_cons; repeat split;
             first [lia | apply not_elem_of_nil] |]).
    apply NoDup_nil_2.
  - f_equal. lia.
  - f_equal. lia.
Qed.

Lemma TransferTx_twice_witness :
  transfers (committed example_transfer_again.2) =
    transfers (committed world0) ++
    [res_Transfer example_transfer.1.1; res_Transfer example_transfer_again.1.1] /\
  Transfer_ID (res_Transfer example_transfer.1.1) <>
  Transfer_ID (res_Transfer example_transfer_again.1.1) /\
  entries (committed example_transfer_again.2) =
    entries (committed world0) ++
    [res_FromEntry example_transfer.1.1; res_ToEntry example_transfer.1.1;
     res_FromEntry example_transfer_again.1.1;
     res_ToEntry example_transfer_again.1.1] /\
  NoDup (Entry_ID <$>
         [res_FromEntry example_transfer.1.1; res_ToEntry example_transfer.1.1;
          res_FromEntry example_transfer_again.1.1;
          res_ToEntry example_transfer_again.1.1]) /\
  balance_of 1 example_transfer_again.2 = Some (100 - 2 * 30) /\
  balance_of 2 example_transfer_again.2 = Some (50 + 2 * 30).
Proof.
  apply (TransferTx_twice (mkCreateTransferParams 1 2 30) world0
           example_transfer.1.1 example_transfer.2
           example_transfer_again.1.1 example_transfer_again.2
           account1 account2).
  - discriminate.
  - split; discriminate.
  - reflexivity.
  - split; discriminate.
  - reflexivity.
  - vm_compute. reflexivity.
  - vm_compute. reflexivity.
Defined.

Lemma same_but_balance_refl o : same_but_balance o o.
Proof. destruct o as [[]|]; done. Qed.

Lemma accounts_apply_write_other tb wr id :
  id ∉ touched [wr] ->
  accounts (apply_write tb wr) !! id = accounts tb !! id.
Proof.
  destruct wr as [t|e|k d]; cbn; try done.
  intros Hid. apply lookup_alter_ne. intros ->. apply Hid. by constructor.
Qed.

Lemma touched_cons wr ws : touched (wr :: ws) = touched [wr] ++ touched ws.
Proof. by destruct wr. Qed.

Lemma accounts_apply_write_row tb wr id o :
  same_but_balance o (accounts tb !! id) ->
  same_but_balance o (accounts (apply_write tb wr) !! id).
Proof.
  destruct wr as [t|e|k d]; cbn; try done.
  destruct (decide (k = id)) as [->|Hne].
  - rewrite lookup_alter_eq.
    destruct o as [a|], (accounts tb !! id) as [a'|]; cbn; try done.
    intros ->. reflexivity.
  - by rewrite lookup_alter_ne.
Qed.

Lemma accounts_foldl_other ws : forall tb id,
  id ∉ touched ws ->
  accounts (foldl apply_write tb ws) !! id = accounts tb !! id.
Proof.
  induction ws as [|wr ws IH]; intros tb id Hid; [done|].
  rewrite touched_cons, not_elem_of_app in Hid. destruct Hid as [Hwr Hws].
  cbn [foldl]. rewrite IH by done. by apply accounts_apply_write_other.
Qed.

Lemma accounts_foldl_row ws : forall tb id o,
  same_but_balance o (accounts tb !! id) ->
  same_but_balance o (accounts (foldl apply_write tb ws) !! id).
Proof.
  induction ws as [|wr ws IH]; intros tb id o Ho; [done|].
  cbn [foldl]. apply IH. by apply accounts_apply_write_row.
Qed.

Lemma touched_writes w p k id :
  id ∈ touched (take k (writes w p)) ->
  id = FromAccountID p \/ id = ToAccountID p.
Proof.
  unfold writes, first_update, second_update.
  destruct (FromAccountID p <? ToAccountID p);
    do 6 (destruct k as [|k];
          [cbn; rewrite ?elem_of_cons, elem_of_nil; tauto|]);
    cbn; rewrite ?elem_of_cons, elem_of_nil; tauto.
Qed.

(** C8. Whatever way [TransferTx] ends, the row of every account other
    than the two of the transfer is unchanged; no account appears or
    disappears, and the two rows change in their balance only; the
    transfers and the entries already present are kept as they are, in
    place, and at most one transfer and two entries are added to them,
    exactly one and two when the call succeeds. *)
Theorem TransferTx_frame p w res err w' :
  TransferTx NewStore p w = (res, err, w') ->
  (forall id, id <> FromAccountID p -> id <> ToAccountID p ->
     accounts (committed w') !! id = accounts (committed w) !! id) /\
  (forall id,
     same_but_balance (accounts (committed w) !! id)
       (accounts (committed w') !! id)) /\
  exists ts es,
    transfers (committed w') = transfers (committed w) ++ ts /\
    entries (committed w') = entries (committed w) ++ es /\
    (length ts <= 1)%nat /\ (length es <= 2)%nat /\
    (err = None -> length ts = 1%nat /\ length es = 2%nat).
Proof.
  intros H. apply TransferTx_outcome in H.
  destruct H as [([e ->] & _ & -> & _) | (k & Hb & Hk)].
  { repeat split; auto using same_but_balance_refl.
    exists [], []. rewrite !app_nil_r. repeat split; auto; discriminate. }
  destruct Hb as (_ & -> & _).
  split; [|split].
  - intros id HF HT. apply accounts_foldl_other.
    intros Hin. apply touched_writes in Hin. tauto.
  - intros id. apply accounts_foldl_row, same_but_balance_refl.
  - rewrite transfers_recorded, entries_recorded. do 2 eexists.
    split; [reflexivity|]. split; [reflexivity|].
    destruct Hk as [(Hlt & (e & He) & _) | (-> & _)].
    + split; [destruct (1 <=? k)%nat; cbn; lia|].
      split; [rewrite length_take; cbn; lia|].
      intros ->. destruct He as [He | (r & He)]; discriminate.
    + cbn. repeat split; lia.
Qed.

Lemma TransferTx_frame_witness :
  (forall id, id <> 1 -> id <> 2 ->
     accounts (committed example_transfer.2) !! id =
     accounts (committed world0) !! id) /\
  (forall id,
     same_but_balance (accounts (committed world0) !! id)
       (accounts (committed example_transfer.2) !! id)) /\
  exists ts es,
    transfers (committed example_transfer.2) = transfers (committed world0) ++ ts /\
    entries (committed example_transfer.2) = entries (committed world0) ++ es /\
    (length ts <= 1)%nat /\ (length es <= 2)%nat /\
    (example_transfer.1.2 = None -> length ts = 1%nat /\ length es = 2%nat).
Proof.
  apply (TransferTx_frame (mkCreateTransferParams 1 2 30) world0
           example_transfer.1.1 example_transfer.1.2 example_transfer.2).
  vm_compute. reflexivity.
Defined.

(** ** A store that does not fail *)

Lemma BeginTx_no_fault w :
  faults w = [] -> exists w1, BeginTx w = (None, w1) /\ faults w1 = [].
Proof.
  unfold BeginTx, roundtrip. destruct w as [tb pend tseq eseq clk fl tr].
  cbn. intros ->. eexists. split; reflexivity.
Qed.

Lemma Commit_no_fault w ws :
  faults w = [] -> pending w = Some ws -> exists w1, Commit w = (None, w1).
Proof.
  unfold Commit, roundtrip. destruct w as [tb pend tseq eseq clk fl tr].
  cbn. intros -> ->. eexists. reflexivity.
Qed.

Lemma CreateTransfer_no_fault arg w :
  faults w = [] ->
  exists t w1, CreateTransfer (New Pool) arg w = (t, None, w1) /\ faults w1 = [].
Proof.
  unfold CreateTransfer, roundtrip. destruct w as [tb pend tseq eseq clk fl tr].
  cbn. intros ->. do 2 eexists. split; reflexivity.
Qed.

Lemma CreateEntry_no_fault arg w :
  faults w = [] ->
  exists e w1, CreateEntry (New Pool) arg w = (e, None, w1) /\ faults w1 = [].
Proof.
  unfold CreateEntry, roundtrip. destruct w as [tb pend tseq eseq clk fl tr].
  cbn. intros ->. do 2 eexists. split; reflexivity.
Qed.

Lemma AddAccountBalance_no_fault id delta w :
  faults w = [] ->
  update_ok (committed w) (id, delta) ->
  exists a w1,
    AddAccountBalance (New Pool) (mkAddAccountBalanceParams delta id) w
    = (a, None, w1) /\ faults w1 = [].
Proof.
  unfold AddAccountBalance, roundtrip, update_ok.
  destruct w as [tb pend tseq eseq clk fl tr].
  cbn. intros -> (a & Hl & Hr). apply in_int64b_spec in Hr.
  cbn. rewrite Hl. cbn. rewrite Hr. do 2 eexists. split; reflexivity.
Qed.

Lemma update_ok_accounts tb tb' u :
  accounts tb = accounts tb' -> update_ok tb u -> update_ok tb' u.
Proof. unfold update_ok. by intros ->. Qed.

(** With no failure planned and two balance updates the store accepts,
    [TransferTx] returns no error. *)
Lemma TransferTx_no_fault p w :
  faults w = [] ->
  update_ok (committed w) (first_update p) ->
  update_ok (add_balance (first_update p).1 (first_update p).2 (committed w))
    (second_update p) ->
  exists res w', TransferTx NewStore p w = (res, None, w').
Proof.
  intros Hf Hu1 Hu2.
  destruct (BeginTx_no_fault w Hf) as (w0 & Hb & Hf0).
  destruct (CreateTransfer_no_fault p w0 Hf0) as (t & w1 & H1 & Hf1).
  pose proof (CreateTransfer_pool_inv _ _ _ _ _ H1)
    as ((_ & Hp1 & _) & _ & [([? ?] & _) | (_ & Et & Hc1 & _)]); [done|].
  destruct (CreateEntry_no_fault
              (mkCreateEntryParams (Transfer_FromAccountID t)
                 (neg64 (Transfer_Amount t))) w1 Hf1)
    as (fe & w2 & H2 & Hf2).
  pose proof (CreateEntry_pool_inv _ _ _ _ _ H2)
    as ((_ & Hp2 & _) & _ & [([? ?] & _) | (_ & _ & Hc2 & _)]); [done|].
  destruct (CreateEntry_no_fault
              (mkCreateEntryParams (Transfer_ToAccountID t)
                 (Transfer_Amount t)) w2 Hf2)
    as (te & w3 & H3 & Hf3).
  pose proof (CreateEntry_pool_inv _ _ _ _ _ H3)
    as ((_ & Hp3 & _) & _ & [([? ?] & _) | (_ & _ & Hc3 & _)]); [done|].
  pose proof (BeginTx_inv _ _ _ Hb) as (_ & Hc0 & _ & _ & _ & Hp0).
  specialize (Hp0 eq_refl).
  assert (accounts (committed w3) = accounts (committed w)) as Hacc.
  { rewrite Hc3, Hc2, Hc1, Hc0. reflexivity. }
  set (u1 := first_update p) in *. set (u2 := second_update p) in *.
  destruct (AddAccountBalance_no_fault u1.1 u1.2 w3 Hf3) as (r1 & w4 & H4 & Hf4).
  { destruct u1. eapply update_ok_accounts; [symmetry; exact Hacc | exact Hu1]. }
  pose proof (AddAccountBalance_pool_inv _ _ _ _ _ _ H4)
    as ((_ & Hp4 & _) & _ & _ & [([? ?] & _) | (_ & _ & _ & Hc4)]); [done|].
  destruct (AddAccountBalance_no_fault u2.1 u2.2 w4 Hf4) as (r2 & w5 & H5 & Hf5).
  { destruct u2. eapply update_ok_accounts; [|exact Hu2].
    rewrite Hc4. unfold add_balance. cbn. by rewrite Hacc. }
  pose proof (AddAccountBalance_pool_inv _ _ _ _ _ _ H5)
    as ((_ & Hp5 & _) & _ & _ & _).
  destruct (Commit_no_fault w5 [] Hf5) as (w6 & H6); [congruence|].
  unfold TransferTx, execTx. rewrite Hb.
  unfold TransferTx_fn. cbn [store_Queries NewStore].
  rewrite H1, H2, H3.
  unfold AddAccountBalanceOrder. cbn [store_Queries NewStore].
  subst u1 u2. unfold first_update, second_update in *.
  destruct (FromAccountID p <? ToAccountID p); cbn in *;
    rewrite H4, H5; cbn; rewrite H6; eauto.
Qed.



(** [result_after], stage by stage. *)
Lemma result_after_stages w p :
  let t := new_transfer w p in
  let fe := new_from_entry w p in
  let te := new_to_entry w p in
  let first := updated (recorded w p 3) (first_update p) in
  let second := updated (recorded w p 4) (second_update p) in
  let lt := FromAccountID p <? ToAccountID p in
  result_after w p 0 = zero_TransferTxResult /\
  result_after w p 1 =
    mkTransferTxResult t zero_Account zero_Account zero_Entry zero_Entry /\
  result_after w p 2 =
    mkTransferTxResult t zero_Account zero_Account fe zero_Entry /\
  result_after w p 3 =
    mkTransferTxResult t zero_Account zero_Account fe te /\
  result_after w p 4 =
    mkTransferTxResult t
      (if lt then first else zero_Account)
      (if lt then zero_Account else first) fe te /\
  result_after w p 5 =
    mkTransferTxResult t
      (if lt then first else second)
      (if lt then second else first) fe te.
Proof.
  unfold result_after. cbn.
  destruct (FromAccountID p <? ToAccountID p); repeat split.
Qed.

(** C9. The result [TransferTx] returns next to an error holds the fields
    that the statements which succeeded before the failing one have
    assigned, and zero values elsewhere: for some [k <= 5], the first [k]
    statements succeeded, the result is [result_after w p k] and the rows
    it carries are those the store holds.  [k = 0] when the transaction
    could not be opened or the transfer could not be created, [k = 5] when
    only the commit failed.  Such a result need not be the zero value. *)
Theorem TransferTx_error_result :
  (forall p w res e w',
     TransferTx NewStore p w = (res, Some e, w') ->
     exists k : nat,
       (k <= 5)%nat /\
       res = result_after w p k /\
       committed w' = recorded w p k /\
       (k = 0%nat /\ trace w' = trace w ++ [EvBeginTx]
        \/
        (k < 5)%nat /\
        trace w' = trace w ++ EvBeginTx :: take (S k) (calls p) ++ [EvRollback]
        \/
        k = 5%nat /\ trace w' = trace w ++ EvBeginTx :: calls p ++ [EvCommit]))
  /\
  (exists p w res e w',
     TransferTx NewStore p w = (res, Some e, w') /\
     res <> zero_TransferTxResult /\
     res = mkTransferTxResult (new_transfer w p) zero_Account zero_Account
             (new_from_entry w p) zero_Entry).
Proof.
  split.
  - intros p w res e w' H. apply TransferTx_outcome in H.
    destruct H as [(_ & -> & Hc & _ & _ & Ht) | (k & Hb & Hk)].
    + exists 0%nat. split; [lia|]. split.
      * symmetry. apply result_after_stages.
      * split; [exact Hc | by left].
    + destruct Hb as (-> & Hc & _). exists k.
      destruct Hk as [(Hlt & _ & Ht) | (-> & Ht)].
      * repeat split; auto; try lia.
      * repeat split; auto.
  - exists (mkCreateTransferParams 1 2 30), world_to_entry_fails.
    exists failed_transfer.1.1, ErrConnDone, failed_transfer.2.
    split; [|split]; [vm_compute; reflexivity | discriminate | reflexivity].
Qed.

Lemma TransferTx_error_result_witness :
  exists k : nat,
    (k <= 5)%nat /\
    failed_transfer.1.1 =
      result_after world_to_entry_fails (mkCreateTransferParams 1 2 30) k /\
    committed failed_transfer.2 =
      recorded world_to_entry_fails (mkCreateTransferParams 1 2 30) k /\
    (k = 0%nat /\
     trace failed_transfer.2 = trace world_to_entry_fails ++ [EvBeginTx]
     \/
     (k < 5)%nat /\
     trace failed_transfer.2 =
       trace world_to_entry_fails ++
       EvBeginTx :: take (S k) (calls (mkCreateTransferParams 1 2 30)) ++
       [EvRollback]
     \/
     k = 5%nat /\
     trace failed_transfer.2 =
       trace world_to_entry_fails ++
       EvBeginTx :: calls (mkCreateTransferParams 1 2 30) ++ [EvCommit]).
Proof.
  apply (proj1 TransferTx_error_result (mkCreateTransferParams 1 2 30)
           world_to_entry_fails failed_transfer.1.1 ErrConnDone
           failed_transfer.2).
  vm_compute. reflexivity.
Defined.

(** ** Atomicity *)

(** Statements that go through the handle of the transaction are not
    visible outside it before the commit; a rollback drops them and a
    commit applies them. *)
Lemma CreateTransfer_in_transaction arg w t err w1 :
  CreateTransfer (New InTx) arg w = (t, err, w1) -> committed w1 = committed w.
Proof.
  unfold CreateTransfer, roundtrip.
  destruct w as [tb [ws|] tseq eseq clk [|[?|] ?] tr]; cbn;
    intros [= <- <- <-]; reflexivity.
Qed.

Lemma CreateEntry_in_transaction arg w e err w1 :
  CreateEntry (New InTx) arg w = (e, err, w1) -> committed w1 = committed w.
Proof.
  unfold CreateEntry, roundtrip.
  destruct w as [tb [ws|] tseq eseq clk [|[?|] ?] tr]; cbn;
    intros [= <- <- <-]; reflexivity.
Qed.

Lemma AddAccountBalance_in_transaction arg w a err w1 :
  AddAccountBalance (New InTx) arg w = (a, err, w1) ->
  committed w1 = committed w.
Proof.
  unfold AddAccountBalance, roundtrip.
  destruct w as [tb [ws|] tseq eseq clk [|[?|] ?] tr]; cbn;
    repeat case_match; intros [= <- <- <-]; reflexivity.
Qed.

Example in_transaction_rollback :
  committed (in_transaction Rollback) = committed world0.
Proof. reflexivity. Qed.

Example in_transaction_commit :
  transfers (committed (in_transaction Commit)) = [mkTransfer 1 1 2 30 1000] /\
  balance_of 1 (in_transaction Commit) = Some 70.
Proof. vm_compute. split; reflexivity. Qed.

(** C2, on the code.  The creation of the destination entry fails: the
    error of the step is returned and a rollback is issued and succeeds,
    yet the transfer row and the source entry stay in the store.  The
    credit of the destination fails: the debit of the source stays too. *)
Theorem TransferTx_failure_keeps_partial_state :
  (failed_transfer.1.2 = Some ErrConnDone /\
   trace failed_transfer.2 =
     [EvBeginTx;
      EvCreateTransfer Pool (mkCreateTransferParams 1 2 30);
      EvCreateEntry Pool (mkCreateEntryParams 1 (-30));
      EvCreateEntry Pool (mkCreateEntryParams 2 30);
      EvRollback] /\
   transfers (committed world_to_entry_fails) = [] /\
   entries (committed world_to_entry_fails) = [] /\
   transfers (committed failed_transfer.2) = [mkTransfer 1 1 2 30 1000] /\
   entries (committed failed_transfer.2) = [mkEntry 1 1 (-30) 1000] /\
   balance_of 1 failed_transfer.2 = Some 100 /\
   balance_of 2 failed_transfer.2 = Some 50)
  /\
  (overflowing_transfer.1.2 = Some (PqError "bigint out of range") /\
   last (trace overflowing_transfer.2) = Some EvRollback /\
   transfers (committed overflowing_transfer.2) = [mkTransfer 1 1 2 30 1000] /\
   entries (committed overflowing_transfer.2) =
     [mkEntry 1 1 (-30) 1000; mkEntry 2 2 30 1000] /\
   balance_of 1 world_overflow = Some 100 /\
   balance_of 1 overflowing_transfer.2 = Some 70 /\
   balance_of 2 overflowing_transfer.2 = Some max_int64).
Proof. vm_compute. repeat split. Qed.

(** The same for every call: as soon as the transfer has been created,
    its row is in the store when the call returns, error or not. *)
Lemma TransferTx_keeps_transfer p w res err w' :
  TransferTx NewStore p w = (res, err, w') ->
  res_Transfer res <> zero_Transfer ->
  transfers (committed w') = transfers (committed w) ++ [res_Transfer res].
Proof.
  intros H Hnz. apply TransferTx_outcome in H.
  destruct H as [(_ & -> & _) | (k & (-> & -> & _) & _)]; [done|].
  rewrite transfers_recorded. unfold result_after in *.
  cbn [res_Transfer] in *.
  destruct (1 <=? k)%nat; [done|]. by destruct Hnz.
Qed.

(** ** Validation *)

(** A transfer of [-30] from account 1 to account 2, and a transfer of 30
    from account 1 to itself, open a transaction, run every statement and
    return no error. *)
Lemma invalid_input_not_rejected :
  ~ rejected_before_transaction (mkCreateTransferParams 1 2 (-30)) world0 /\
  ~ rejected_before_transaction (mkCreateTransferParams 1 1 30) world0 /\
  (TransferTx NewStore (mkCreateTransferParams 1 2 (-30)) world0).1.2 = None /\
  trace (TransferTx NewStore (mkCreateTransferParams 1 2 (-30)) world0).2 =
    [EvBeginTx;
     EvCreateTransfer Pool (mkCreateTransferParams 1 2 (-30));
     EvCreateEntry Pool (mkCreateEntryParams 1 30);
     EvCreateEntry Pool (mkCreateEntryParams 2 (-30));
     EvAddAccountBalance Pool (mkAddAccountBalanceParams 30 1);
     EvAddAccountBalance Pool (mkAddAccountBalanceParams (-30) 2);
     EvCommit] /\
  balance_of 1 (TransferTx NewStore (mkCreateTransferParams 1 2 (-30)) world0).2
    = Some 130 /\
  balance_of 2 (TransferTx NewStore (mkCreateTransferParams 1 2 (-30)) world0).2
    = Some 20.
Proof.
  split; [|split].
  - intros [H _]. by vm_compute in H.
  - intros [H _]. by vm_compute in H.
  - vm_compute. repeat split.
Qed.

(** C5 (amended).  [TransferTx] checks neither the sign of the amount nor
    that the two accounts differ.  Whatever its input, its first call on
    the store opens a transaction; unless that fails, in which case the
    error is the one of [BeginTx], the creation of the transfer is reached
    with the parameters as they were given.  And whatever its input, when
    no call on the store fails and the store accepts the two balance
    updates, it returns no error: an error can only come from the store. *)
Theorem TransferTx_validates_nothing p w :
  (forall res err w',
     TransferTx NewStore p w = (res, err, w') ->
     (exists e, BeginTx w = (Some e, w') /\ err = Some e /\
                trace w' = trace w ++ [EvBeginTx])
     \/
     ((BeginTx w).1 = None /\
      exists evs,
        trace w' = trace w ++ EvBeginTx :: EvCreateTransfer Pool p :: evs))
  /\
  (faults w = [] ->
   update_ok (committed w) (first_update p) ->
   update_ok (add_balance (first_update p).1 (first_update p).2 (committed w))
     (second_update p) ->
   exists res w',
     TransferTx NewStore p w = (res, None, w') /\
     trace w' = trace w ++ EvBeginTx :: calls p ++ [EvCommit]).
Proof.
  split.
  - intros res err w'. unfold TransferTx.
    destruct (execTx _ _ _ w) as [[err0 res0] w0] eqn:Hx.
    intros [= <- <- <-]. apply execTx_inv in Hx.
    destruct Hx as [(e & Hb & -> & ->) | (w1 & w2 & stepErr & Hb & Hfn & Hend)].
    { left. exists e. repeat split; auto. apply BeginTx_inv in Hb. apply Hb. }
    right. split; [by rewrite Hb|].
    apply BeginTx_inv in Hb. destruct Hb as (Htb & _).
    apply TransferTx_fn_inv in Hfn. destruct Hfn as (k & _ & _ & Ht2 & _).
    assert (exists ev, trace w0 = trace w2 ++ [ev]) as [ev Ht3].
    { destruct stepErr as [e|].
      - destruct Hend as (errRb & Hr & _). apply Rollback_inv in Hr.
        exists EvRollback. apply Hr.
      - apply Commit_inv in Hend. exists EvCommit. apply Hend. }
    exists (take k (drop 1 (calls p)) ++ [ev]).
    rewrite Ht3, Ht2, Htb, <- !app_assoc. reflexivity.
  - intros Hf Hu1 Hu2.
    destruct (TransferTx_no_fault p w Hf Hu1 Hu2) as (res & w' & H).
    exists res, w'. split; [exact H|]. by apply TransferTx_ok in H as [_ ?].
Qed.

Lemma TransferTx_validates_nothing_witness :
  let p := mkCreateTransferParams 1 2 (-30) in
  ((exists e, BeginTx world0 = (Some e, (TransferTx NewStore p world0).2) /\
              (TransferTx NewStore p world0).1.2 = Some e /\
              trace (TransferTx NewStore p world0).2 = trace world0 ++ [EvBeginTx])
   \/
   ((BeginTx world0).1 = None /\
    exists evs,
      trace (TransferTx NewStore p world0).2 =
      trace world0 ++ EvBeginTx :: EvCreateTransfer Pool p :: evs))
  /\
  exists res w',
    TransferTx NewStore p world0 = (res, None, w') /\
    trace w' = trace world0 ++ EvBeginTx :: calls p ++ [EvCommit].
Proof.
  destruct (TransferTx_validates_nothing (mkCreateTransferParams 1 2 (-30)) world0)
    as [Hfirst Hnil].
  split.
  - apply (Hfirst
             (TransferTx NewStore (mkCreateTransferParams 1 2 (-30)) world0).1.1
             (TransferTx NewStore (mkCreateTransferParams 1 2 (-30)) world0).1.2
             (TransferTx NewStore (mkCreateTransferParams 1 2 (-30)) world0).2).
    vm_compute. reflexivity.
  - apply Hnil.
    + reflexivity.
    + exists account1. split; [reflexivity | vm_compute; split; discriminate].
    + exists account2.
      split; [vm_compute; reflexivity | vm_compute; split; discriminate].
Defined.

(** * Beyond the claims *)

(** ** Rows selected, updated and deleted by identifier *)

Section ById_facts.
Context {R : Type} (ID : R -> Z).

Lemma where_id_elem_of id rows r :
  r ∈ where_id ID id rows <-> ID r = id /\ r ∈ rows.
Proof. unfold where_id. by rewrite list_elem_of_filter. Qed.

Lemma where_id_none id rows :
  where_id ID id rows = [] <-> Forall (fun r => ID r <> id) rows.
Proof.
  unfold where_id. induction rows as [|r rows IH]; [done|].
  rewrite filter_cons. destruct (decide (ID r = id)) as [E|E].
  - split; [done|]. intros Hall. by inversion Hall.
  - rewrite IH. split; [by constructor | intros Hall; by inversion Hall].
Qed.

Lemma where_id_update id (set : R -> R) rows :
  (forall r, ID (set r) = ID r) ->
  where_id ID id (update_where_id ID id set rows) = set <$> where_id ID id rows.
Proof.
  intros Hid. unfold where_id, update_where_id.
  induction rows as [|r rows IH]; [done|].
  rewrite fmap_cons, !filter_cons.
  destruct (decide (ID r = id)) as [E|E].
  - rewrite decide_True by (by rewrite Hid). rewrite fmap_cons. by f_equal.
  - by rewrite decide_False.
Qed.

Lemma where_id_update_other id id' (set : R -> R) rows :
  (forall r, ID (set r) = ID r) -> id' <> id ->
  where_id ID id' (update_where_id ID id set rows) = where_id ID id' rows.
Proof.
  intros Hid Hne. unfold where_id, update_where_id.
  induction rows as [|r rows IH]; [done|].
  rewrite fmap_cons, !filter_cons.
  destruct (decide (ID r = id)) as [E|E].
  - rewrite !decide_False by (rewrite ?Hid; congruence). done.
  - rewrite IH. done.
Qed.

Lemma update_where_id_none id (set : R -> R) rows :
  where_id ID id rows = [] -> update_where_id ID id set rows = rows.
Proof.
  rewrite where_id_none. unfold update_where_id.
  induction 1 as [|r rows Hr _ IH]; [done|].
  rewrite fmap_cons, decide_False by done. by f_equal.
Qed.

Lemma where_id_delete id rows :
  where_id ID id (delete_where_id ID id rows) = [].
Proof.
  apply where_id_none, Forall_forall. intros r Hr.
  apply list_elem_of_filter in Hr. tauto.
Qed.

Lemma where_id_delete_other id id' rows :
  id' <> id ->
  where_id ID id' (delete_where_id ID id rows) = where_id ID id' rows.
Proof.
  intros Hne. unfold where_id, delete_where_id.
  induction rows as [|r rows IH]; [done|].
  rewrite !filter_cons.
  destruct (decide (ID r <> id)) as [E|E].
  - rewrite filter_cons, IH. done.
  - rewrite IH, decide_False; [done|]. intros E'. apply E. congruence.
Qed.

Lemma delete_where_id_none id rows :
  where_id ID id rows = [] -> delete_where_id ID id rows = rows.
Proof.
  rewrite where_id_none. unfold delete_where_id.
  induction 1 as [|r rows Hr _ IH]; [done|].
  rewrite filter_cons, decide_True by done. by f_equal.
Qed.

Lemma where_id_fresh id rows r :
  Forall (fun r' => ID r' <> id) rows -> ID r = id ->
  where_id ID id (rows ++ [r]) = [r].
Proof.
  intros Hall Hr. unfold where_id. rewrite filter_app.
  fold (where_id ID id rows). rewrite (proj2 (where_id_none id rows) Hall).
  rewrite filter_cons, decide_True by done. done.
Qed.

Lemma where_id_snoc_other id rows r :
  ID r <> id -> where_id ID id (rows ++ [r]) = where_id ID id rows.
Proof.
  intros Hr. unfold where_id. rewrite filter_app, filter_cons.
  rewrite decide_False by done. cbn. by rewrite app_nil_r.
Qed.

Global Instance id_le_total : Total (id_le ID).
Proof. intros a b. unfold id_le. lia. Qed.

Global Instance id_le_trans : Transitive (id_le ID).
Proof. intros a b c. unfold id_le. lia. Qed.

Lemma order_by_id_sorted rows : StronglySorted (id_le ID) (order_by_id ID rows).
Proof. apply StronglySorted_merge_sort; apply _. Qed.

Lemma order_by_id_perm rows : order_by_id ID rows ≡ₚ rows.
Proof. apply merge_sort_Permutation. Qed.

Lemma limit_offset_ok limit offset (rows page : list R) :
  limit_offset limit offset rows = (page, None) ->
  0 <= limit /\ 0 <= offset /\
  page = take (Z.to_nat limit) (drop (Z.to_nat offset) rows).
Proof.
  unfold limit_offset.
  destruct (Z.ltb_spec limit 0); [done|].
  destruct (Z.ltb_spec offset 0); [done|].
  intros [= <-]. auto.
Qed.

Lemma limit_offset_nonneg limit offset (rows : list R) :
  0 <= limit -> 0 <= offset ->
  limit_offset limit offset rows =
  (take (Z.to_nat limit) (drop (Z.to_nat offset) rows), None).
Proof.
  intros Hl Ho. unfold limit_offset.
  destruct (Z.ltb_spec limit 0); [lia|].
  destruct (Z.ltb_spec offset 0); [lia|]. done.
Qed.

Lemma StronglySorted_sublist (Rel : relation R) l1 l2 :
  l1 `sublist_of` l2 -> StronglySorted Rel l2 -> StronglySorted Rel l1.
Proof.
  induction 1 as [|x l1 l2 Hs IH|x l1 l2 Hs IH]; intros Hsorted.
  - constructor.
  - apply StronglySorted_inv in Hsorted as [Hl2 Hx]. constructor; [auto|].
    eapply Forall_forall. intros y Hy.
    rewrite Forall_forall in Hx. apply Hx. by eapply elem_of_sublist.
  - apply StronglySorted_inv in Hsorted as [Hl2 _]. auto.
Qed.

Lemma page_sublist n m (rows : list R) : take n (drop m rows) `sublist_of` rows.
Proof. etrans; [apply sublist_take | apply sublist_drop]. Qed.

End ById_facts.

Lemma one_ok {R : Type} (zero r : R) rows :
  one zero rows = (r, None) <-> exists rest, rows = r :: rest.
Proof.
  destruct rows as [|r' rest]; cbn; split.
  - done.
  - by intros [? ?].
  - intros [= ->]. eauto.
  - intros [? [= -> _]]. done.
Qed.

Lemma one_none {R : Type} (zero : R) rows :
  (one zero rows).2 = Some ErrNoRows <-> rows = [].
Proof. destruct rows; cbn; split; done. Qed.

(** ** transfer.sql *)

(** X1. A transfer that [CreateTransfer] has just inserted is what
    [GetTransfer] returns for its identifier; it carries the accounts and
    the amount given, and the other identifiers read as before. *)
Theorem GetTransfer_after_CreateTransfer arg w t w1 :
  Forall (fun r => Transfer_ID r <= transfers_id_seq w) (transfers (committed w)) ->
  CreateTransfer (New Pool) arg w = (t, None, w1) ->
  GetTransfer (Transfer_ID t) (committed w1) = (t, None) /\
  Transfer_FromAccountID t = FromAccountID arg /\
  Transfer_ToAccountID t = ToAccountID arg /\
  Transfer_Amount t = Amount arg /\
  forall id, id <> Transfer_ID t ->
    GetTransfer id (committed w1) = GetTransfer id (committed w).
Proof.
  intros Hseq H. apply CreateTransfer_pool_inv in H.
  destruct H as (_ & _ & [([? ?] & _) | (_ & Et & Hc & _)]); [done|].
  rewrite Hc. unfold GetTransfer, insert_transfer. cbn [transfers].
  assert (Transfer_ID t = transfers_id_seq w + 1) as Hid by (by rewrite Et).
  split; [|rewrite Et at 1 2 3; cbn; repeat split].
  - rewrite where_id_fresh; [done| |done].
    eapply Forall_impl; [exact Hseq|]. cbn. lia.
  - intros id Hne. by rewrite where_id_snoc_other.
Qed.

Lemma GetTransfer_after_CreateTransfer_witness :
  let r := CreateTransfer (New Pool) (mkCreateTransferParams 1 2 30) world0 in
  GetTransfer (Transfer_ID r.1.1) (committed r.2) = (r.1.1, None) /\
  Transfer_FromAccountID r.1.1 = 1 /\
  Transfer_ToAccountID r.1.1 = 2 /\
  Transfer_Amount r.1.1 = 30 /\
  forall id, id <> Transfer_ID r.1.1 ->
    GetTransfer id (committed r.2) = GetTransfer id (committed world0).
Proof.
  apply (GetTransfer_after_CreateTransfer (mkCreateTransferParams 1 2 30) world0).
  - constructor.
  - reflexivity.
Defined.

(** X2. [UpdateTransfer] on an identifier that [GetTransfer] finds returns
    the row with the same identifier and creation time and with the
    accounts and the amount given; [GetTransfer] returns that row
    afterwards; the other identifiers read as before, the table keeps its
    length, and accounts and entries are not touched. *)
Theorem UpdateTransfer_found arg tb t :
  GetTransfer (UpdateTransfer_ID arg) tb = (t, None) ->
  exists t' tb',
    UpdateTransfer arg tb = (t', None, tb') /\
    Transfer_ID t' = UpdateTransfer_ID arg /\
    Transfer_CreatedAt t' = Transfer_CreatedAt t /\
    Transfer_FromAccountID t' = UpdateTransfer_FromAccountID arg /\
    Transfer_ToAccountID t' = UpdateTransfer_ToAccountID arg /\
    Transfer_Amount t' = UpdateTransfer_Amount arg /\
    GetTransfer (UpdateTransfer_ID arg) tb' = (t', None) /\
    (forall id, id <> UpdateTransfer_ID arg ->
       GetTransfer id tb' = GetTransfer id tb) /\
    length (transfers tb') = length (transfers tb) /\
    accounts tb' = accounts tb /\ entries tb' = entries tb.
Proof.
  unfold GetTransfer, UpdateTransfer. intros H.
  apply one_ok in H as [rest Hrows].
  assert (Transfer_ID t = UpdateTransfer_ID arg) as Hid.
  { assert (t ∈ where_id Transfer_ID (UpdateTransfer_ID arg) (transfers tb))
      as Hin by (rewrite Hrows; by left).
    by apply where_id_elem_of in Hin as [? _]. }
  exists (set_transfer arg t).
  exists (with_transfers
            (update_where_id Transfer_ID (UpdateTransfer_ID arg)
               (set_transfer arg) (transfers tb)) tb).
  split; [by rewrite Hrows|].
  unfold with_transfers. cbn [transfers accounts entries].
  repeat split; auto.
  - rewrite where_id_update by done. by rewrite Hrows.
  - intros id Hne. by rewrite where_id_update_other.
  - unfold update_where_id. by rewrite length_fmap.
Qed.

Lemma UpdateTransfer_found_witness :
  let arg := mkUpdateTransferParams 77 2 1 5 in
  exists t' tb',
    UpdateTransfer arg ten_transfers = (t', None, tb') /\
    Transfer_ID t' = 5 /\
    Transfer_CreatedAt t' = Transfer_CreatedAt (mkTransfer 5 1 2 5 1000) /\
    Transfer_FromAccountID t' = 2 /\
    Transfer_ToAccountID t' = 1 /\
    Transfer_Amount t' = 77 /\
    GetTransfer 5 tb' = (t', None) /\
    (forall id, id <> 5 -> GetTransfer id tb' = GetTransfer id ten_transfers) /\
    length (transfers tb') = length (transfers ten_transfers) /\
    accounts tb' = accounts ten_transfers /\ entries tb' = entries ten_transfers.
Proof.
  apply (UpdateTransfer_found (mkUpdateTransferParams 77 2 1 5) ten_transfers
           (mkTransfer 5 1 2 5 1000)).
  reflexivity.
Defined.

(** X3. [UpdateTransfer] on an identifier that [GetTransfer] does not find
    returns [sql.ErrNoRows] and the zero row, and changes nothing. *)
Theorem UpdateTransfer_missing arg tb :
  (GetTransfer (UpdateTransfer_ID arg) tb).2 = Some ErrNoRows ->
  UpdateTransfer arg tb = (zero_Transfer, Some ErrNoRows, tb).
Proof.
  unfold GetTransfer, UpdateTransfer. intros H. apply one_none in H.
  rewrite H, update_where_id_none by done. by destruct tb.
Qed.

Lemma UpdateTransfer_missing_witness :
  UpdateTransfer (mkUpdateTransferParams 77 2 1 42) ten_transfers
  = (zero_Transfer, Some ErrNoRows, ten_transfers).
Proof.
  apply (UpdateTransfer_missing (mkUpdateTransferParams 77 2 1 42) ten_transfers).
  reflexivity.
Defined.

(** X4. After [DeleteTransfer], which reports no error whether or not the
    row existed, [GetTransfer] returns [sql.ErrNoRows] for the identifier;
    the other identifiers read as before, the rows left keep their order,
    accounts and entries are not touched, and deleting again changes
    nothing more. *)
Theorem DeleteTransfer_then_GetTransfer id tb :
  let tb' := (DeleteTransfer id tb).2 in
  (DeleteTransfer id tb).1 = None /\
  GetTransfer id tb' = (zero_Transfer, Some ErrNoRows) /\
  (forall id', id' <> id -> GetTransfer id' tb' = GetTransfer id' tb) /\
  transfers tb' `sublist_of` transfers tb /\
  accounts tb' = accounts tb /\ entries tb' = entries tb /\
  DeleteTransfer id tb' = (None, tb').
Proof.
  unfold DeleteTransfer, GetTransfer, with_transfers.
  cbn [fst snd transfers accounts entries]. repeat split.
  - by rewrite where_id_delete.
  - intros id' Hne. by rewrite where_id_delete_other.
  - apply sublist_filter.
  - do 2 f_equal. apply delete_where_id_none, where_id_delete.
Qed.

(** X5. [DeleteTransfer] on an identifier that [GetTransfer] does not find
    leaves the tables as they are. *)
Theorem DeleteTransfer_missing id tb :
  (GetTransfer id tb).2 = Some ErrNoRows ->
  DeleteTransfer id tb = (None, tb).
Proof.
  unfold GetTransfer, DeleteTransfer. intros H. apply one_none in H.
  rewrite delete_where_id_none by done. by destruct tb.
Qed.

Lemma DeleteTransfer_missing_witness :
  DeleteTransfer 42 ten_transfers = (None, ten_transfers).
Proof. apply (DeleteTransfer_missing 42 ten_transfers). reflexivity. Defined.

(** X6. The rows [ListTransfers] returns are in ascending order of
    identifier, at most [Limit] of them, all taken from the table, each as
    often as the table has it at most; and then neither [Limit] nor
    [Offset] was negative. *)
Theorem ListTransfers_page arg tb rows :
  ListTransfers arg tb = (rows, None) ->
  0 <= ListTransfers_Limit arg /\ 0 <= ListTransfers_Offset arg /\
  StronglySorted (id_le Transfer_ID) rows /\
  Z.of_nat (length rows) <= ListTransfers_Limit arg /\
  rows ⊆+ transfers tb.
Proof.
  unfold ListTransfers. intros H. apply limit_offset_ok in H as (Hl & Ho & ->).
  repeat split; auto.
  - eapply StronglySorted_sublist; [apply page_sublist|].
    apply order_by_id_sorted.
  - rewrite length_take. lia.
  - etrans; [apply sublist_submseteq, page_sublist|].
    apply Permutation_submseteq, order_by_id_perm.
Qed.

Lemma ListTransfers_page_witness :
  let rows := (ListTransfers (mkListTransfersParams 5 5) ten_transfers).1 in
  0 <= 5 /\ 0 <= 5 /\
  StronglySorted (id_le Transfer_ID) rows /\
  Z.of_nat (length rows) <= 5 /\
  rows ⊆+ transfers ten_transfers.
Proof.
  apply (ListTransfers_page (mkListTransfersParams 5 5) ten_transfers).
  vm_compute. reflexivity.
Defined.

(** X7. With a table of at least [Offset + Limit] rows, [ListTransfers]
    returns exactly [Limit] rows; with [Offset] at or past the end of the
    table it returns no row and no error. *)
Theorem ListTransfers_count arg tb :
  0 <= ListTransfers_Limit arg -> 0 <= ListTransfers_Offset arg ->
  exists rows,
    ListTransfers arg tb = (rows, None) /\
    (ListTransfers_Offset arg + ListTransfers_Limit arg
     <= Z.of_nat (length (transfers tb)) ->
     Z.of_nat (length rows) = ListTransfers_Limit arg) /\
    (Z.of_nat (length (transfers tb)) <= ListTransfers_Offset arg ->
     rows = []).
Proof.
  intros Hl Ho. unfold ListTransfers. rewrite limit_offset_nonneg by done.
  eexists. split; [reflexivity|].
  pose proof (Permutation_length (order_by_id_perm Transfer_ID (transfers tb)))
    as Hlen.
  split; intros H.
  - rewrite length_take, length_drop. lia.
  - rewrite drop_ge by lia. by rewrite take_nil.
Qed.

Lemma ListTransfers_count_witness :
  exists rows,
    ListTransfers (mkListTransfersParams 5 5) ten_transfers = (rows, None) /\
    (5 + 5 <= Z.of_nat (length (transfers ten_transfers)) ->
     Z.of_nat (length rows) = 5) /\
    (Z.of_nat (length (transfers ten_transfers)) <= 5 -> rows = []).
Proof.
  apply (ListTransfers_count (mkListTransfersParams 5 5) ten_transfers);
    discriminate.
Defined.

(** X8. Consecutive pages of [ListTransfers] neither overlap nor skip a
    row: the page of [l1] rows at offset [o] followed by the page of [l2]
    rows at offset [o + l1] is the page of [l1 + l2] rows at offset [o]. *)
Theorem ListTransfers_next_page l1 l2 o tb :
  0 <= l1 -> 0 <= l2 -> 0 <= o ->
  (ListTransfers (mkListTransfersParams l1 o) tb).1 ++
  (ListTransfers (mkListTransfersParams l2 (o + l1)) tb).1 =
  (ListTransfers (mkListTransfersParams (l1 + l2) o) tb).1.
Proof.
  intros H1 H2 Ho. unfold ListTransfers. cbn.
  rewrite !limit_offset_nonneg by lia. cbn.
  rewrite !Z2Nat.inj_add by lia.
  rewrite <- drop_drop. apply take_take_drop.
Qed.

Lemma ListTransfers_next_page_witness :
  (ListTransfers (mkListTransfersParams 3 2) ten_transfers).1 ++
  (ListTransfers (mkListTransfersParams 4 (2 + 3)) ten_transfers).1 =
  (ListTransfers (mkListTransfersParams (3 + 4) 2) ten_transfers).1.
Proof.
  apply (ListTransfers_next_page 3 4 2 ten_transfers); discriminate.
Defined.

(** ** entry.sql *)

(** X9. An entry that [CreateEntry] has just inserted is what [GetEntry]
    returns for its identifier; it carries the account and the amount
    given, and the other identifiers read as before. *)
Theorem GetEntry_after_CreateEntry arg w e w1 :
  Forall (fun r => Entry_ID r <= entries_id_seq w) (entries (committed w)) ->
  CreateEntry (New Pool) arg w = (e, None, w1) ->
  GetEntry (Entry_ID e) (committed w1) = (e, None) /\
  Entry_AccountID e = CreateEntry_AccountID arg /\
  Entry_Amount e = CreateEntry_Amount arg /\
  forall id, id <> Entry_ID e ->
    GetEntry id (committed w1) = GetEntry id (committed w).
Proof.
  intros Hseq H. apply CreateEntry_pool_inv in H.
  destruct H as (_ & _ & [([? ?] & _) | (_ & Et & Hc & _)]); [done|].
  rewrite Hc. unfold GetEntry, insert_entry. cbn [entries].
  assert (Entry_ID e = entries_id_seq w + 1) as Hid by (by rewrite Et).
  split; [|rewrite Et at 1 2; cbn; repeat split].
  - rewrite where_id_fresh; [done| |done].
    eapply Forall_impl; [exact Hseq|]. cbn. lia.
  - intros id Hne. by rewrite where_id_snoc_other.
Qed.

Lemma GetEntry_after_CreateEntry_witness :
  let r := CreateEntry (New Pool) (mkCreateEntryParams 1 (-30)) world0 in
  GetEntry (Entry_ID r.1.1) (committed r.2) = (r.1.1, None) /\
  Entry_AccountID r.1.1 = 1 /\
  Entry_Amount r.1.1 = -30 /\
  forall id, id <> Entry_ID r.1.1 ->
    GetEntry id (committed r.2) = GetEntry id (committed world0).
Proof.
  apply (GetEntry_after_CreateEntry (mkCreateEntryParams 1 (-30)) world0).
  - constructor.
  - reflexivity.
Defined.

(** X10. [UpdateEntry] on an identifier that [GetEntry] finds changes the
    amount and nothing else: the row returned has the identifier, the
    account and the creation time it had, and the amount given;
    [GetEntry] returns that row afterwards; the other identifiers read as
    before, the table keeps its length, and accounts and transfers are not
    touched, so that no balance follows the amount. *)
Theorem UpdateEntry_found arg tb e :
  GetEntry (UpdateEntry_ID arg) tb = (e, None) ->
  exists e' tb',
    UpdateEntry arg tb = (e', None, tb') /\
    Entry_ID e' = UpdateEntry_ID arg /\
    Entry_AccountID e' = Entry_AccountID e /\
    Entry_CreatedAt e' = Entry_CreatedAt e /\
    Entry_Amount e' = UpdateEntry_Amount arg /\
    GetEntry (UpdateEntry_ID arg) tb' = (e', None) /\
    (forall id, id <> UpdateEntry_ID arg -> GetEntry id tb' = GetEntry id tb) /\
    length (entries tb') = length (entries tb) /\
    accounts tb' = accounts tb /\ transfers tb' = transfers tb.
Proof.
  unfold GetEntry, UpdateEntry. intros H.
  apply one_ok in H as [rest Hrows].
  assert (Entry_ID e = UpdateEntry_ID arg) as Hid.
  { assert (e ∈ where_id Entry_ID (UpdateEntry_ID arg) (entries tb))
      as Hin by (rewrite Hrows; by left).
    by apply where_id_elem_of in Hin as [? _]. }
  exists (set_entry arg e).
  exists (with_entries
            (update_where_id Entry_ID (UpdateEntry_ID arg)
               (set_entry arg) (entries tb)) tb).
  split; [by rewrite Hrows|].
  unfold with_entries. cbn [transfers accounts entries].
  repeat split; auto.
  - rewrite where_id_update by done. by rewrite Hrows.
  - intros id Hne. by rewrite where_id_update_other.
  - unfold update_where_id. by rewrite length_fmap.
Qed.

Lemma UpdateEntry_found_witness :
  let arg := mkUpdateEntryParams 77 4 in
  exists e' tb',
    UpdateEntry arg ten_transfers = (e', None, tb') /\
    Entry_ID e' = 4 /\
    Entry_AccountID e' = Entry_AccountID (mkEntry 4 1 (-4) 1000) /\
    Entry_CreatedAt e' = Entry_CreatedAt (mkEntry 4 1 (-4) 1000) /\
    Entry_Amount e' = 77 /\
    GetEntry 4 tb' = (e', None) /\
    (forall id, id <> 4 -> GetEntry id tb' = GetEntry id ten_transfers) /\
    length (entries tb') = length (entries ten_transfers) /\
    accounts tb' = accounts ten_transfers /\
    transfers tb' = transfers ten_transfers.
Proof.
  apply (UpdateEntry_found (mkUpdateEntryParams 77 4) ten_transfers
           (mkEntry 4 1 (-4) 1000)).
  reflexivity.
Defined.

(** X11. [UpdateEntry] on an identifier that [GetEntry] does not find
    returns [sql.ErrNoRows] and the zero row, and changes nothing. *)
Theorem UpdateEntry_missing arg tb :
  (GetEntry (UpdateEntry_ID arg) tb).2 = Some ErrNoRows ->
  UpdateEntry arg tb = (zero_Entry, Some ErrNoRows, tb).
Proof.
  unfold GetEntry, UpdateEntry. intros H. apply one_none in H.
  rewrite H, update_where_id_none by done. by destruct tb.
Qed.

Lemma UpdateEntry_missing_witness :
  UpdateEntry (mkUpdateEntryParams 77 42) ten_transfers
  = (zero_Entry, Some ErrNoRows, ten_transfers).
Proof.
  apply (UpdateEntry_missing (mkUpdateEntryParams 77 42) ten_transfers).
  reflexivity.
Defined.

(** X12. After [DeleteEntry], which reports no error whether or not the
    row existed, [GetEntry] returns [sql.ErrNoRows] for the identifier; the
    other identifiers read as before, the rows left keep their order,
    accounts and transfers are not touched, and deleting again changes
    nothing more. *)
Theorem DeleteEntry_then_GetEntry id tb :
  let tb' := (DeleteEntry id tb).2 in
  (DeleteEntry id tb).1 = None /\
  GetEntry id tb' = (zero_Entry, Some ErrNoRows) /\
  (forall id', id' <> id -> GetEntry id' tb' = GetEntry id' tb) /\
  entries tb' `sublist_of` entries tb /\
  accounts tb' = accounts tb /\ transfers tb' = transfers tb /\
  DeleteEntry id tb' = (None, tb').
Proof.
  unfold DeleteEntry, GetEntry, with_entries.
  cbn [fst snd transfers accounts entries]. repeat split.
  - by rewrite where_id_delete.
  - intros id' Hne. by rewrite where_id_delete_other.
  - apply sublist_filter.
  - do 2 f_equal. apply delete_where_id_none, where_id_delete.
Qed.

(** X13. The rows [ListEntries] returns are in ascending order of
    identifier, at most [Limit] of them, all taken from the table, each as
    often as the table has it at most; and then neither [Limit] nor
    [Offset] was negative. *)
Theorem ListEntries_page arg tb rows :
  ListEntries arg tb = (rows, None) ->
  0 <= ListEntries_Limit arg /\ 0 <= ListEntries_Offset arg /\
  StronglySorted (id_le Entry_ID) rows /\
  Z.of_nat (length rows) <= ListEntries_Limit arg /\
  rows ⊆+ entries tb.
Proof.
  unfold ListEntries. intros H. apply limit_offset_ok in H as (Hl & Ho & ->).
  repeat split; auto.
  - eapply StronglySorted_sublist; [apply page_sublist|].
    apply order_by_id_sorted.
  - rewrite length_take. lia.
  - etrans; [apply sublist_submseteq, page_sublist|].
    apply Permutation_submseteq, order_by_id_perm.
Qed.

Lemma ListEntries_page_witness :
  let rows := (ListEntries (mkListEntriesParams 2 1) ten_transfers).1 in
  0 <= 2 /\ 0 <= 1 /\
  StronglySorted (id_le Entry_ID) rows /\
  Z.of_nat (length rows) <= 2 /\
  rows ⊆+ entries ten_transfers.
Proof.
  apply (ListEntries_page (mkListEntriesParams 2 1) ten_transfers).
  vm_compute. reflexivity.
Defined.

(** X14. Consecutive pages of [ListEntries] neither overlap nor skip a
    row, and a page that starts at or past the end of the table is empty
    and no error. *)
Theorem ListEntries_next_page l1 l2 o tb :
  0 <= l1 -> 0 <= l2 -> 0 <= o ->
  (ListEntries (mkListEntriesParams l1 o) tb).1 ++
  (ListEntries (mkListEntriesParams l2 (o + l1)) tb).1 =
  (ListEntries (mkListEntriesParams (l1 + l2) o) tb).1 /\
  (Z.of_nat (length (entries tb)) <= o ->
   ListEntries (mkListEntriesParams l1 o) tb = ([], None)).
Proof.
  intros H1 H2 Ho. unfold ListEntries. cbn.
  rewrite !limit_offset_nonneg by lia. cbn. split.
  - rewrite !Z2Nat.inj_add by lia.
    rewrite <- drop_drop. apply take_take_drop.
  - intros Hend.
    pose proof (Permutation_length (order_by_id_perm Entry_ID (entries tb))).
    rewrite drop_ge by lia. by rewrite take_nil.
Qed.

Lemma ListEntries_next_page_witness :
  (ListEntries (mkListEntriesParams 1 1) ten_transfers).1 ++
  (ListEntries (mkListEntriesParams 2 (1 + 1)) ten_transfers).1 =
  (ListEntries (mkListEntriesParams (1 + 2) 1) ten_transfers).1 /\
  (Z.of_nat (length (entries ten_transfers)) <= 1 ->
   ListEntries (mkListEntriesParams 1 1) ten_transfers = ([], None)).
Proof.
  apply (ListEntries_next_page 1 2 1 ten_transfers); discriminate.
Defined.

(** ** store.go: the transaction wrapper *)

Lemma Rollback_pending w err w1 : Rollback w = (err, w1) -> pending w1 = None.
Proof.
  unfold Rollback, roundtrip.
  destruct w as [tb [?|] tseq eseq clk [|[?|] ?] tr];
    cbn; intros [= <- <-]; reflexivity.
Qed.

Lemma Commit_pending w err w1 : Commit w = (err, w1) -> pending w1 = None.
Proof.
  unfold Commit, roundtrip.
  destruct w as [tb [?|] tseq eseq clk [|[?|] ?] tr];
    cbn; intros [= <- <-]; reflexivity.
Qed.

Lemma Commit_ok_inv w w1 :
  Commit w = (None, w1) ->
  exists ws, pending w = Some ws /\
             committed w1 = foldl apply_write (committed w) ws.
Proof.
  unfold Commit, roundtrip.
  destruct w as [tb [ws|] tseq eseq clk [|[?|] ?] tr];
    cbn; intros [= <-]; cbn; eauto.
Qed.

Lemma Commit_error_inv w e w1 :
  Commit w = (Some e, w1) -> committed w1 = committed w.
Proof.
  unfold Commit, roundtrip.
  destruct w as [tb [ws|] tseq eseq clk [|[?|] ?] tr];
    cbn; intros [= <- <-]; reflexivity.
Qed.

Lemma step_through_handle_committed s w :
  committed (step_through_handle (New InTx) s w).2 = committed w.
Proof.
  unfold step_through_handle.
  destruct (CreateTransfer _ _ w) as [[t [e|]] w1] eqn:H1; cbn.
  - by apply CreateTransfer_in_transaction in H1.
  - destruct (AddAccountBalance _ _ w1) as [[a e] w2] eqn:H2; cbn.
    apply CreateTransfer_in_transaction in H1.
    apply AddAccountBalance_in_transaction in H2. congruence.
Qed.

(** X15. Once [BeginTx] has succeeded, [execTx] ends the transaction
    whatever the step does and whatever fails: the step runs once, on the
    handle of the transaction, and the one call that follows it is
    [Commit] if it returned no error and [Rollback] otherwise; no
    transaction is open when [execTx] returns. *)
Theorem execTx_ends_transaction {S : Type} (store : SQLStore)
  (fn : Queries -> S -> World -> option error * S * World)
  s w w1 err s' w' :
  BeginTx w = (None, w1) ->
  execTx store fn s w = (err, s', w') ->
  pending w' = None /\
  exists stepErr w2,
    fn (New InTx) s w1 = (stepErr, s', w2) /\
    trace w' =
    trace w2 ++ [match stepErr with None => EvCommit | Some _ => EvRollback end].
Proof.
  intros Hb H. apply execTx_inv in H.
  destruct H as [(e & Hb' & _) | (w1' & w2 & stepErr & Hb' & Hfn & Hend)];
    [congruence|].
  assert (w1' = w1) as -> by congruence.
  destruct stepErr as [e|].
  - destruct Hend as (errRb & Hr & _). split.
    + by apply Rollback_pending in Hr.
    + exists (Some e), w2. split; [done|]. by apply Rollback_inv in Hr as [? _].
  - split.
    + by apply Commit_pending in Hend.
    + exists None, w2. split; [done|]. by apply Commit_inv in Hend as [? _].
Qed.

Lemma execTx_ends_transaction_witness :
  let r := execTx NewStore step_through_handle tt world_third_call_fails in
  pending r.2 = None /\
  exists stepErr w2,
    step_through_handle (New InTx) tt (BeginTx world_third_call_fails).2
    = (stepErr, r.1.2, w2) /\
    trace r.2 =
    trace w2 ++ [match stepErr with None => EvCommit | Some _ => EvRollback end].
Proof.
  apply (execTx_ends_transaction NewStore step_through_handle tt
           world_third_call_fails (BeginTx world_third_call_fails).2
           (execTx NewStore step_through_handle tt world_third_call_fails).1.1).
  - reflexivity.
  - vm_compute. reflexivity.
Defined.

(** X16. [execTx] is all or nothing for a step that works through the
    handle it is given, that is, that leaves the committed tables alone:
    when [execTx] returns an error, be it the error of [BeginTx], of the
    step, of the rollback or of the commit, the committed tables are what
    they were. *)
Theorem execTx_all_or_nothing {S : Type} (store : SQLStore)
  (fn : Queries -> S -> World -> option error * S * World)
  s w e s' w' :
  (forall s0 w0, committed (fn (New InTx) s0 w0).2 = committed w0) ->
  execTx store fn s w = (Some e, s', w') ->
  committed w' = committed w.
Proof.
  intros Hfn H. apply execTx_inv in H.
  destruct H as [(e' & Hb & _) | (w1 & w2 & stepErr & Hb & Hrun & Hend)].
  { by apply BeginTx_inv in Hb as (_ & ? & _). }
  apply BeginTx_inv in Hb as (_ & Hc1 & _).
  pose proof (Hfn s w1) as Hc2. rewrite Hrun in Hc2. cbn in Hc2.
  destruct stepErr as [e'|].
  - destruct Hend as (errRb & Hr & _).
    apply Rollback_inv in Hr as (_ & Hc3 & _). congruence.
  - apply Commit_error_inv in Hend. congruence.
Qed.

Lemma execTx_all_or_nothing_witness :
  committed (execTx NewStore step_through_handle tt world_third_call_fails).2
  = committed world_third_call_fails.
Proof.
  apply (execTx_all_or_nothing NewStore step_through_handle tt
           world_third_call_fails ErrConnDone tt).
  - apply step_through_handle_committed.
  - vm_compute. reflexivity.
Defined.

(** X17. When [execTx] returns no error, the step has returned none and
    the writes it left in the transaction have been applied to the
    committed tables, in the order it made them. *)
Theorem execTx_commits_queued_writes {S : Type} (store : SQLStore)
  (fn : Queries -> S -> World -> option error * S * World)
  s w s' w' :
  execTx store fn s w = (None, s', w') ->
  exists w1 w2 ws,
    BeginTx w = (None, w1) /\
    fn (New InTx) s w1 = (None, s', w2) /\
    pending w2 = Some ws /\
    committed w' = foldl apply_write (committed w2) ws.
Proof.
  intros H. apply execTx_inv in H.
  destruct H as [(e' & _ & ? & _) | (w1 & w2 & stepErr & Hb & Hrun & Hend)];
    [done|].
  destruct stepErr as [e'|].
  - destruct Hend as (errRb & _ & ?). done.
  - apply Commit_ok_inv in Hend as (ws & Hp & Hc).
    exists w1, w2, ws. auto.
Qed.

Lemma execTx_commits_queued_writes_witness :
  exists w1 w2 ws,
    BeginTx world0 = (None, w1) /\
    step_through_handle (New InTx) tt w1 = (None, tt, w2) /\
    pending w2 = Some ws /\
    committed (execTx NewStore step_through_handle tt world0).2
    = foldl apply_write (committed w2) ws.
Proof.
  apply (execTx_commits_queued_writes NewStore step_through_handle tt world0 tt).
  vm_compute. reflexivity.
Defined.

Example step_through_handle_committed_result :
  let w' := (execTx NewStore step_through_handle tt world0).2 in
  transfers (committed w') = [mkTransfer 1 1 2 30 1000] /\
  balance_of 1 w' = Some 70.
Proof. vm_compute. split; reflexivity. Qed.

(** ** store.go: what a transfer keeps *)

Lemma total_balance_add_balance id delta tb a :
  accounts tb !! id = Some a ->
  total_balance (add_balance id delta tb) = total_balance tb + delta.
Proof.
  intros Hl. unfold total_balance, add_balance. cbn [accounts].
  set (f := fun (_ : Z) (a : Account) (sum : Z) => Account_Balance a + sum).
  assert (forall (m : gmap Z Account) k x,
             m !! k = None -> map_fold f 0 (<[k:=x]> m) = f k x (map_fold f 0 m))
    as Hins.
  { intros m k x Hk. apply map_fold_insert_L; [|done].
    intros. unfold f. lia. }
  assert (alter (fun a0 => set_balance (Account_Balance a0 + delta) a0) id
            (accounts tb)
          = <[id := set_balance (Account_Balance a + delta) a]>
              (delete id (accounts tb))) as ->.
  { apply map_eq. intros k. destruct (decide (id = k)) as [<-|Hne].
    - by rewrite lookup_alter_eq, lookup_insert_eq, Hl.
    - by rewrite lookup_alter_ne, lookup_insert_ne, lookup_delete_ne. }
  rewrite <- (insert_delete_id (accounts tb) id a Hl) at 2.
  rewrite !Hins by apply lookup_delete_eq.
  unfold f, set_balance. cbn. lia.
Qed.

(** X18. A transfer that succeeds, of an amount other than the smallest
    int64, leaves the sum of all balances as it was, whether or not the
    two accounts differ. *)
Theorem TransferTx_conserves_total_balance p w res w' :
  in_int64 (Amount p) ->
  Amount p <> min_int64 ->
  TransferTx NewStore p w = (res, None, w') ->
  total_balance (committed w') = total_balance (committed w).
Proof.
  intros Hamt Hmin H. apply TransferTx_ok in H as [(_ & Hc & _ & _ & _ & Hu1 & Hu2) _].
  specialize (Hu1 ltac:(lia)). specialize (Hu2 ltac:(lia)).
  destruct Hu1 as (a1 & Hl1 & _), Hu2 as (a2 & Hl2 & _).
  rewrite Hc, recorded_5.
  rewrite (total_balance_add_balance _ _ _ a2 Hl2), recorded_4.
  rewrite (total_balance_add_balance _ _ _ a1 Hl1).
  assert (total_balance (recorded w p 3) = total_balance (committed w)) as ->
    by reflexivity.
  pose proof (neg64_opp _ Hamt Hmin) as Hneg.
  unfold first_update, second_update.
  destruct (FromAccountID p <? ToAccountID p); cbn; lia.
Qed.

Lemma TransferTx_conserves_total_balance_witness :
  total_balance (committed example_transfer.2) = total_balance (committed world0).
Proof.
  apply (TransferTx_conserves_total_balance (mkCreateTransferParams 1 2 30)
           world0 example_transfer.1.1 example_transfer.2).
  - split; discriminate.
  - discriminate.
  - vm_compute. reflexivity.
Defined.

Lemma NoDup_fmap_snoc {R : Type} (ID : R -> Z) rows r bound :
  Forall (fun x => ID x <= bound) rows -> bound < ID r ->
  NoDup (ID <$> rows) -> NoDup (ID <$> (rows ++ [r])).
Proof.
  intros Hall Hr Hnd. rewrite fmap_app. apply NoDup_app. split; [done|]. split.
  - intros x Hx Hx'. apply list_elem_of_singleton in Hx'. subst x.
    apply list_elem_of_fmap in Hx as (y & Hy & Hin).
    rewrite Forall_forall in Hall. specialize (Hall y Hin). lia.
  - apply NoDup_singleton.
Qed.

Lemma sequences_ahead_insert_transfer tb t tseq :
  Forall (fun x => Transfer_ID x <= tseq) (transfers tb) ->
  NoDup (Transfer_ID <$> transfers tb) ->
  Transfer_ID t = tseq + 1 ->
  Forall (fun x => Transfer_ID x <= tseq + 1) (transfers (insert_transfer t tb)) /\
  NoDup (Transfer_ID <$> transfers (insert_transfer t tb)).
Proof.
  intros Hall Hnd Hid. unfold insert_transfer. cbn [transfers]. split.
  - apply Forall_app. split.
    + eapply Forall_impl; [exact Hall|]. cbn. lia.
    + repeat constructor. lia.
  - eapply NoDup_fmap_snoc; [exact Hall | lia | done].
Qed.

Lemma sequences_ahead_insert_entry tb e eseq :
  Forall (fun x => Entry_ID x <= eseq) (entries tb) ->
  NoDup (Entry_ID <$> entries tb) ->
  Entry_ID e = eseq + 1 ->
  Forall (fun x => Entry_ID x <= eseq + 1) (entries (insert_entry e tb)) /\
  NoDup (Entry_ID <$> entries (insert_entry e tb)).
Proof.
  intros Hall Hnd Hid. unfold insert_entry. cbn [entries]. split.
  - apply Forall_app. split.
    + eapply Forall_impl; [exact Hall|]. cbn. lia.
    + repeat constructor. lia.
  - eapply NoDup_fmap_snoc; [exact Hall | lia | done].
Qed.

(** X19. [TransferTx] keeps the identifiers of transfers and of entries
    distinct and not above their sequences, however it ends. *)
Theorem TransferTx_keeps_sequences_ahead p w res err w' :
  sequences_ahead w ->
  TransferTx NewStore p w = (res, err, w') ->
  sequences_ahead w'.
Proof.
  intros (Ht & He & Hnt & Hne) H. apply TransferTx_outcome in H.
  unfold sequences_ahead.
  destruct H as [(_ & _ & -> & -> & -> & _) | (k & Hb & Hk)]; [done|].
  destruct Hb as (_ & -> & -> & -> & _).
  assert (k <= 5)%nat as Hk5 by (destruct Hk as [(? & _) | (-> & _)]; lia).
  clear Hk.
  destruct (sequences_ahead_insert_transfer (committed w) (new_transfer w p)
              _ Ht Hnt eq_refl) as [Ht1 Hnt1].
  set (tb1 := insert_transfer (new_transfer w p) (committed w)) in *.
  destruct (sequences_ahead_insert_entry tb1 (new_from_entry w p)
              _ He Hne eq_refl) as [He1 Hne1].
  set (tb2 := insert_entry (new_from_entry w p) tb1) in *.
  destruct (sequences_ahead_insert_entry tb2 (new_to_entry w p)
              _ He1 Hne1 eq_refl) as [He2 Hne2].
  replace (entries_id_seq w + 1 + 1) with (entries_id_seq w + 2) in He2 by lia.
  do 6 (destruct k as [|k]; [cbn; rewrite ?Z.add_0_r; done|]). lia.
Qed.

Lemma TransferTx_keeps_sequences_ahead_witness :
  sequences_ahead failed_transfer.2.
Proof.
  apply (TransferTx_keeps_sequences_ahead (mkCreateTransferParams 1 2 30)
           world_to_entry_fails failed_transfer.1.1 failed_transfer.1.2).
  - repeat split; constructor.
  - vm_compute. reflexivity.
Defined.

(** X20. What a successful [TransferTx] returns can be read back: with
    identifiers not above their sequences before the call, [GetTransfer]
    returns the transfer of the result for its identifier, and [GetEntry]
    the two entries of the result for theirs. *)
Theorem TransferTx_result_read_back p w res w' :
  sequences_ahead w ->
  TransferTx NewStore p w = (res, None, w') ->
  GetTransfer (Transfer_ID (res_Transfer res)) (committed w')
  = (res_Transfer res, None) /\
  GetEntry (Entry_ID (res_FromEntry res)) (committed w')
  = (res_FromEntry res, None) /\
  GetEntry (Entry_ID (res_ToEntry res)) (committed w')
  = (res_ToEntry res, None).
Proof.
  intros (Ht & He & _) H. apply TransferTx_ok in H as [(-> & Hc & _) _].
  unfold GetTransfer, GetEntry.
  rewrite Hc, transfers_recorded, entries_recorded.
  unfold result_after. cbn.
  assert (where_id Entry_ID (entries_id_seq w + 1)
            (entries (committed w) ++ [new_from_entry w p])
          = [new_from_entry w p]) as Hfe.
  { apply where_id_fresh; [|done].
    eapply Forall_impl; [exact He|]. cbn. lia. }
  repeat split.
  - rewrite where_id_fresh; [done| |done].
    eapply Forall_impl; [exact Ht|]. cbn. lia.
  - change (entries (committed w) ++ [new_from_entry w p; new_to_entry w p])
      with (entries (committed w) ++ [new_from_entry w p] ++ [new_to_entry w p]).
    rewrite app_assoc, where_id_snoc_other by (cbn; lia). by rewrite Hfe.
  - change (entries (committed w) ++ [new_from_entry w p; new_to_entry w p])
      with (entries (committed w) ++ [new_from_entry w p] ++ [new_to_entry w p]).
    rewrite app_assoc, where_id_fresh; [done| |done].
    apply Forall_app. split.
    + eapply Forall_impl; [exact He|]. cbn. lia.
    + repeat constructor. cbn. lia.
Qed.

Lemma TransferTx_result_read_back_witness :
  let res := example_transfer.1.1 in
  GetTransfer (Transfer_ID (res_Transfer res)) (committed example_transfer.2)
  = (res_Transfer res, None) /\
  GetEntry (Entry_ID (res_FromEntry res)) (committed example_transfer.2)
  = (res_FromEntry res, None) /\
  GetEntry (Entry_ID (res_ToEntry res)) (committed example_transfer.2)
  = (res_ToEntry res, None).
Proof.
  apply (TransferTx_result_read_back (mkCreateTransferParams 1 2 30) world0
           example_transfer.1.1 example_transfer.2).
  - repeat split; constructor.
  - vm_compute. reflexivity.
Defined.
